(** * SQL.Collection: the replication handlers of [packages/sql/collection.js]

    The file embeds the store handlers that [SQL.Collection] registers with
    its connection ([beginUpdate], [update], [endUpdate]) and the constructor
    path that leads to the registration, and proves the properties the
    specification states about them. *)

From stdpp Require Import base option strings countable gmap fin_maps list.
From Stdlib Require Import ZArith.

(** ** JavaScript values

    The values a message or a document carries.  The handlers never look
    inside a field value: they compare it with [undefined] and copy it.
    [VUndefined] is the sentinel a [changed] message uses for "unset";
    arrays and nested objects are trees of values. *)

#[local] Set Warnings "-register-all".

Inductive Value : Type :=
| VUndefined
| VNull
| VBool (b : bool)
| VNum (n : Z)
| VStr (s : string)
| VArray (items : list Value)
| VObject (props : list (string * Value)).

(** Values are countable, so that they can serve as keys of the store. *)
Definition Atom : Type := bool + (Z + string).

Fixpoint Value_to_tree (v : Value) : gen_tree Atom :=
  match v with
  | VUndefined => GenNode 0 []
  | VNull => GenNode 1 []
  | VBool b => GenLeaf (inl b)
  | VNum n => GenLeaf (inr (inl n))
  | VStr s => GenLeaf (inr (inr s))
  | VArray items => GenNode 2 (map Value_to_tree items)
  | VObject props =>
      GenNode 3 (map (λ kv, GenNode 4 [GenLeaf (inr (inr kv.1)); Value_to_tree kv.2])
                     props)
  end.

Fixpoint Value_of_tree (t : gen_tree Atom) : Value :=
  match t with
  | GenLeaf (inl b) => VBool b
  | GenLeaf (inr (inl n)) => VNum n
  | GenLeaf (inr (inr s)) => VStr s
  | GenNode 1 _ => VNull
  | GenNode 2 ts => VArray (map Value_of_tree ts)
  | GenNode 3 ts =>
      VObject (map (λ t, match t with
                         | GenNode _ [GenLeaf (inr (inr k)); t'] => (k, Value_of_tree t')
                         | _ => (EmptyString, VUndefined)
                         end) ts)
  | GenNode _ _ => VUndefined
  end.

#[global] Instance Value_of_to_tree : Cancel (=) Value_of_tree Value_to_tree.
Proof.
  unfold Cancel. fix IH 1. intros [| | b | n | s | items | props]; cbn; try reflexivity.
  - f_equal. induction items as [| v items IHitems]; cbn; [reflexivity |].
    by rewrite IH, IHitems.
  - f_equal. induction props as [| [k v] props IHprops]; cbn; [reflexivity |].
    by rewrite IH, IHprops.
Qed.

#[global] Instance Value_eq_dec : EqDecision Value.
Proof.
  intros x y. destruct (decide (Value_to_tree x = Value_to_tree y)) as [H | H].
  - left. rewrite <- (Value_of_to_tree x), <- (Value_of_to_tree y). by rewrite H.
  - right. by intros ->.
Defined.

#[global] Instance Value_countable : Countable Value :=
  inj_countable' Value_to_tree Value_of_tree Value_of_to_tree.

(** JavaScript truthiness: [!v] is [negb (truthy v)]. *)
Definition truthy (v : Value) : bool :=
  match v with
  | VUndefined | VNull => false
  | VBool b => b
  | VNum n => negb (Z.eqb n 0)
  | VStr s => negb (String.eqb s EmptyString)
  | VArray _ | VObject _ => true
  end.

(** A plain object used as a field mapping or as a document (a document is
    the object that also carries its identifier under ["_id"]). *)
Abbreviation Obj := (gmap string Value).

(** Identifiers are JavaScript values: what [LocalCollection._idParse]
    returns and what a document holds under ["_id"]. *)
Abbreviation Id := Value.

(** [_.extend(dst, src)]: every property of [src] is copied over [dst];
    an absent [src] leaves [dst] as it is. *)
Definition extend (dst : Obj) (src : option Obj) : Obj :=
  match src with
  | Some s => s ∪ dst
  | None => dst
  end.

(** [_.isEmpty(o)]: no own property; [undefined] counts as empty. *)
Definition isEmpty (o : option Obj) : bool :=
  match o with
  | Some f => bool_decide (f = ∅)
  | None => true
  end.

(** ** Exceptions *)

(** [Error m] is [throw new Error(m)] in the handlers and the constructor;
    [DuplicateKey] and [NotFound] are the faults of the document store. *)
Inductive Exn : Type :=
| Error (message : string)
| DuplicateKey
| NotFound.

(** The specification calls the faults raised by the handlers themselves
    protocol violations. *)
Definition ProtocolViolation (e : Exn) : Prop :=
  match e with
  | Error _ => True
  | _ => False
  end.

(** ** The document store *)

(** The first argument of [remove]: an identifier, or the empty selector
    [{}] that matches every document. *)
Inductive Selector : Type :=
| SelId (id : Id)
| SelAll.

(** The second argument of [update]: either a replacement document, or a
    modifier object whose properties ["$set"] and ["$unset"] are objects. *)
Inductive Modifier : Type :=
| Replacement (doc : Obj)
| Operators (ops : gmap string Obj).

Module LocalCollection.

(** Modelled from the spec: LocalCollection (the DocumentStore held in
    [self._collection]) is not part of this package.  Section 4.1: a keyed
    table of documents with point lookup, insert (DuplicateKey when the
    identifier is present), remove (NotFound when absent), field-level update
    (NotFound when absent) and a counted pause/resume gate on which an
    unmatched resume does nothing. *)
Record t : Type := mk { docs : gmap Id Obj; paused : nat }.

(** Modelled from the spec: the identifier of a document object is what
    reading its ["_id"] property gives. *)
Definition idOf (doc : Obj) : Id := default VUndefined (doc !! "_id").

(** Modelled from the spec: [findOne(id)] is a lookup without side effects. *)
Definition findOne (id : Id) (c : t) : option Obj := docs c !! id.

(** Modelled from the spec: [insert(doc)] fails with DuplicateKey when the
    identifier is present. *)
Definition insert (doc : Obj) (c : t) : Exn + t :=
  match docs c !! idOf doc with
  | Some _ => inl DuplicateKey
  | None => inr (mk (<[idOf doc := doc]> (docs c)) (paused c))
  end.

(** Modelled from the spec: [remove(id)] fails with NotFound when absent;
    [remove({})] removes every document. *)
Definition remove (sel : Selector) (c : t) : Exn + t :=
  match sel with
  | SelAll => inr (mk ∅ (paused c))
  | SelId id =>
      match docs c !! id with
      | Some _ => inr (mk (delete id (docs c)) (paused c))
      | None => inl NotFound
      end
  end.

(** Modelled from the spec: a replacement overwrites the whole document; a
    modifier sets the fields of its ["$set"] group and removes the fields of
    its ["$unset"] group. *)
Definition modify (doc : Obj) (m : Modifier) : Obj :=
  match m with
  | Replacement r => r
  | Operators ops =>
      (default ∅ (ops !! "$set") ∪ doc) ∖ default ∅ (ops !! "$unset")
  end.

(** Modelled from the spec: [update(id, m)] fails with NotFound when the
    document does not exist. *)
Definition update (id : Id) (m : Modifier) (c : t) : Exn + t :=
  match docs c !! id with
  | Some d => inr (mk (<[id := modify d m]> (docs c)) (paused c))
  | None => inl NotFound
  end.

(** Modelled from the spec: pausing is counted. *)
Definition pauseObservers (c : t) : t := mk (docs c) (S (paused c)).

(** Modelled from the spec: a resume without a matching pause is a no-op. *)
Definition resumeObservers (c : t) : t := mk (docs c) (Nat.pred (paused c)).

End LocalCollection.

(** ** Running the handlers *)

(** The calls a handler makes on [self._collection], in order. *)
Inductive Call : Type :=
| CFindOne (id : Id)
| CInsert (doc : Obj)
| CRemove (sel : Selector)
| CUpdate (id : Id) (m : Modifier)
| CPauseObservers
| CResumeObservers.

(** The collection behind [self._collection] together with the log of the
    calls made on it. *)
Record World : Type := mkWorld { store : LocalCollection.t; calls : list Call }.

Inductive Result (A : Type) : Type :=
| Ok (a : A)
| Throw (e : Exn).
Arguments Ok {A} a.
Arguments Throw {A} e.

(** A handler body: it runs on the world, returns or throws, and leaves the
    world as it was at that point (an exception rolls nothing back). *)
Definition M (A : Type) : Type := World → Result A * World.

Definition ret {A} (a : A) : M A := λ w, (Ok a, w).

Definition throw {A} (e : Exn) : M A := λ w, (Throw e, w).

Definition bind {A B} (k : A → M B) (m : M A) : M B :=
  λ w, match m w with
       | (Ok a, w') => k a w'
       | (Throw e, w') => (Throw e, w')
       end.

#[global] Instance M_ret : MRet M := @ret.
#[global] Instance M_bind : MBind M := @bind.

Definition log (c : Call) (w : World) : World :=
  mkWorld (store w) (calls w ++ [c]).

(** A call [self._collection.f(...)] that cannot fail. *)
Definition call_total (c : Call) (f : LocalCollection.t → LocalCollection.t)
  : M unit :=
  λ w, (Ok tt, mkWorld (f (store w)) (calls w ++ [c])).

(** A call [self._collection.f(...)] that may throw; the store is then
    unchanged. *)
Definition call_partial (c : Call)
    (f : LocalCollection.t → Exn + LocalCollection.t) : M unit :=
  λ w, match f (store w) with
       | inr s => (Ok tt, mkWorld s (calls w ++ [c]))
       | inl e => (Throw e, log c w)
       end.

Definition coll_findOne (id : Id) : M (option Obj) :=
  λ w, (Ok (LocalCollection.findOne id (store w)), log (CFindOne id) w).

Definition coll_insert (doc : Obj) : M unit :=
  call_partial (CInsert doc) (LocalCollection.insert doc).

Definition coll_remove (sel : Selector) : M unit :=
  call_partial (CRemove sel) (LocalCollection.remove sel).

Definition coll_update (id : Id) (m : Modifier) : M unit :=
  call_partial (CUpdate id m) (LocalCollection.update id m).

Definition coll_pauseObservers : M unit :=
  call_total CPauseObservers LocalCollection.pauseObservers.

Definition coll_resumeObservers : M unit :=
  call_total CResumeObservers LocalCollection.resumeObservers.

(** ** The handlers registered with the connection *)

(** A wire message as [update] reads it: [msg.msg], [msg.id], [msg.fields]
    and [msg.replace]; [None] is an absent ([undefined] or [null]) property. *)
Record Msg : Type := mkMsg {
  msg_msg : string;
  msg_id : string;
  msg_fields : option Obj;
  msg_replace : option Obj
}.

(** The body of the [_.each] callback in the [changed] branch. *)
Definition changed_each (key : string) (value : Value) (modifier : gmap string Obj)
  : gmap string Obj :=
  if decide (value = VUndefined) then
    let modifier :=
      if modifier !! "$unset" is Some _ then modifier
      else <["$unset" := ∅]> modifier in
    <["$unset" := <[key := VNum 1]> (default ∅ (modifier !! "$unset"))]> modifier
  else
    let modifier :=
      if modifier !! "$set" is Some _ then modifier
      else <["$set" := ∅]> modifier in
    <["$set" := <[key := value]> (default ∅ (modifier !! "$set"))]> modifier.

(** [var modifier = {}; _.each(msg.fields, ...)]. *)
Definition changed_modifier (fields : Obj) : gmap string Obj :=
  map_fold changed_each ∅ fields.

Section Handlers.

(** [LocalCollection._idParse] is not part of this package. *)
Variable _idParse : string → Id.

Definition beginUpdate (batchSize : Z) (reset : bool) : M unit :=
  (if (1 <? batchSize)%Z || reset then coll_pauseObservers else mret tt);;
  (if reset then coll_remove SelAll else mret tt).

Definition update (msg : Msg) : M unit :=
  let mongoId := _idParse (msg_id msg) in
  doc ← coll_findOne mongoId;
  if String.eqb (msg_msg msg) "replace" then
    match msg_replace msg with
    | None => if doc is Some _ then coll_remove (SelId mongoId) else mret tt
    | Some replace =>
        if doc is Some _ then coll_update mongoId (Replacement replace)
        else coll_insert replace
    end
  else if String.eqb (msg_msg msg) "added" then
    (if doc is Some _
     then throw (Error "Expected not to find a document already present for an add")
     else mret tt);;
    coll_insert (extend {[ "_id" := mongoId ]} (msg_fields msg))
  else if String.eqb (msg_msg msg) "removed" then
    (if doc is Some _ then mret tt
     else throw (Error "Expected to find a document already present for removed"));;
    coll_remove (SelId mongoId)
  else if String.eqb (msg_msg msg) "changed" then
    (if doc is Some _ then mret tt
     else throw (Error "Expected to find a document to change"));;
    if isEmpty (msg_fields msg) then mret tt
    else coll_update mongoId (Operators (changed_modifier (default ∅ (msg_fields msg))))
  else
    throw (Error "I don't know how to deal with this message").

Definition endUpdate : M unit := coll_resumeObservers.

End Handlers.

(** ** The constructor *)

(** A connection object, as far as the constructor uses it: its identity
    (for [===]) and, when it has a [registerStore] method, whether the call
    [registerStore(name, handlers)] returns a truthy value. *)
Record Connection : Type := mkConnection {
  conn_key : nat;
  conn_registerStore : option (string → bool)
}.

(** A reference that may hold a connection. *)
Inductive ConnRef : Type :=
| ConnUndefined
| ConnNull
| ConnObj (c : Connection).

Definition conn_truthy (r : ConnRef) : bool :=
  if r is ConnObj _ then true else false.

(** [a === b] on connection references. *)
Definition conn_same (a b : ConnRef) : bool :=
  match a, b with
  | ConnUndefined, ConnUndefined => true
  | ConnNull, ConnNull => true
  | ConnObj x, ConnObj y => Nat.eqb (conn_key x) (conn_key y)
  | _, _ => false
  end.

Inductive Driver : Type :=
| GivenDriver (key : nat)
| DefaultRemoteCollectionDriver
| LocalCollectionDriver.

(** The [options] object. *)
Record Options : Type := mkOptions {
  opt_manager : ConnRef;
  opt_connection : ConnRef;
  opt_idGeneration : option string;
  opt__driver : option Driver
}.

(** The second argument of the constructor: nothing, an object with a
    [methods] property (the original signature passed the connection
    itself), or an options object. *)
Inductive OptionsArg : Type :=
| NoOptions
| LegacyConnection (c : Connection)
| WithOptions (o : Options).

(** What the constructor reads from its surroundings. *)
Record Environment : Type := mkEnvironment {
  Meteor_isClient : bool;
  Meteor_connection : ConnRef;
  Meteor_server : ConnRef;
  MongoInternals_defaultRemoteCollectionDriver : bool
}.

Inductive IdGeneration : Type :=
| MONGO
| STRING.

(** The fields the constructor sets on [self]; [_registered] records that
    the handlers were handed to the connection.  [_transform] and
    [_collection] hold what [LocalCollection.wrapTransform] and
    [_driver.open] return and are not represented. *)
Record Instance : Type := mkInstance {
  _makeNewID : IdGeneration;
  _connection : ConnRef;
  _name : option string;
  _driver : Driver;
  _registered : bool
}.

Definition dquote : string := String (Ascii.ascii_of_nat 34) EmptyString.

Definition name_truthy (name : option string) : bool :=
  match name with
  | Some s => negb (String.eqb s EmptyString)
  | None => false
  end.

(** [name] inside a string concatenation; it is a string whenever a
    connection was chosen. *)
Definition name_string (name : option string) : string :=
  match name with
  | Some s => s
  | None => "null"
  end.

(** The edits of [options] before the defaults are filled in: an object
    with [methods] is the connection itself, and [manager] is the old name
    of [connection]. *)
Definition normalize_options (options : OptionsArg) : Options :=
  let options :=
    match options with
    | LegacyConnection c => Some (mkOptions ConnUndefined (ConnObj c) None None)
    | WithOptions o => Some o
    | NoOptions => None
    end in
  let options :=
    match options with
    | Some o =>
        if conn_truthy (opt_manager o) && negb (conn_truthy (opt_connection o))
        then Some (mkOptions (opt_manager o) (opt_manager o)
                             (opt_idGeneration o) (opt__driver o))
        else Some o
    | None => None
    end in
  match options with
  | Some o => o
  | None => mkOptions ConnUndefined ConnUndefined (Some "STRING") None
  end.

Section Constructor.

Variable env : Environment.

(** The value given to [self._connection]. *)
Definition choose_connection (name : option string) (options : Options) : ConnRef :=
  if negb (name_truthy name) || conn_same (opt_connection options) ConnNull
  then ConnNull
  else if conn_truthy (opt_connection options) then opt_connection options
  else if Meteor_isClient env then Meteor_connection env
  else Meteor_server env.

(** The value of [options._driver] once the constructor has filled it in. *)
Definition choose_driver (name : option string) (connection : ConnRef)
    (options : Options) : Driver :=
  match opt__driver options with
  | Some d => d
  | None =>
      if name_truthy name && conn_same connection (Meteor_server env)
         && MongoInternals_defaultRemoteCollectionDriver env
      then DefaultRemoteCollectionDriver
      else LocalCollectionDriver
  end.

Definition Collection (calledWithNew : bool) (name : Value) (options : OptionsArg)
  : Result Instance :=
  if negb calledWithNew then
    Throw (Error ("use " +:+ dquote +:+ "new" +:+ dquote
                  +:+ " to construct a SQL.Collection"))
  else
  let name :=
    if negb (truthy name) && negb (bool_decide (name = VNull)) then VNull else name in
  match name with
  | VUndefined | VBool _ | VNum _ | VArray _ | VObject _ =>
      Throw (Error "First argument to new Mongo.Collection must be a string or null")
  | VNull | VStr _ =>
      let name := if name is VStr s then Some s else None in
      let options := normalize_options options in
      let makeNewID :=
        if opt_idGeneration options is Some "MONGO" then MONGO else STRING in
      let connection := choose_connection name options in
      let driver := choose_driver name connection options in
      match connection with
      | ConnObj c =>
          match conn_registerStore c with
          | Some registerStore =>
              let ok := registerStore (name_string name) in
              if negb ok then
                Throw (Error ("There is already a collection named '"
                              +:+ name_string name +:+ "'"))
              else Ok (mkInstance makeNewID connection name driver true)
          | None => Ok (mkInstance makeNewID connection name driver false)
          end
      | _ => Ok (mkInstance makeNewID connection name driver false)
      end
  end.

End Constructor.

(** ** Batches and the reference model *)

Section Replay.

Variable _idParse : string → Id.

(** The transport applies the messages of a batch in order. *)
Fixpoint updates (msgs : list Msg) : M unit :=
  match msgs with
  | [] => mret tt
  | msg :: rest => update _idParse msg;; updates rest
  end.

End Replay.

Module Reference.

(** The reference of the model-based test: a plain map from identifier to
    document, driven by the interpretation rules of the specification
    (section 4.2); [None] is a protocol violation. *)

(** "a field mapped to the absent sentinel means unset that field, any
    other value means set it" *)
Definition change_field (new old : option Value) : option Value :=
  match new with
  | Some VUndefined => None
  | Some v => Some v
  | None => old
  end.

Definition change (fields doc : Obj) : Obj := merge change_field fields doc.

(** The document named [id] that has the given fields. *)
Definition document (id : Id) (fields : Obj) : Obj := <["_id" := id]> fields.

Definition apply (id : Id) (msg : Msg) (m : gmap Id Obj) : option (gmap Id Obj) :=
  if String.eqb (msg_msg msg) "replace" then
    match msg_replace msg, m !! id with
    | None, Some _ => Some (delete id m)
    | None, None => Some m
    | Some r, None => Some (<[id := r]> m)
    | Some r, Some _ => Some (<[id := r]> m)
    end
  else if String.eqb (msg_msg msg) "added" then
    match m !! id with
    | Some _ => None
    | None => Some (<[id := document id (default ∅ (msg_fields msg))]> m)
    end
  else if String.eqb (msg_msg msg) "removed" then
    match m !! id with
    | Some _ => Some (delete id m)
    | None => None
    end
  else if String.eqb (msg_msg msg) "changed" then
    match m !! id with
    | Some d => Some (<[id := change (default ∅ (msg_fields msg)) d]> m)
    | None => None
    end
  else None.

Fixpoint replay (_idParse : string → Id) (msgs : list Msg) (m : gmap Id Obj)
  : option (gmap Id Obj) :=
  match msgs with
  | [] => Some m
  | msg :: rest =>
      match apply (_idParse (msg_id msg)) msg m with
      | Some m' => replay _idParse rest m'
      | None => None
      end
  end.

End Reference.

(** A message that names its document consistently: the field mapping of an
    [added] message has no ["_id"] entry other than the identifier of the
    message, and a replacement document has the identifier of the message
    as its ["_id"]. *)
Definition names_own_id (_idParse : string → Id) (msg : Msg) : bool :=
  let id := _idParse (msg_id msg) in
  if String.eqb (msg_msg msg) "replace" then
    match msg_replace msg with
    | Some r => bool_decide (r !! "_id" = Some id)
    | None => true
    end
  else if String.eqb (msg_msg msg) "added" then
    match default ∅ (msg_fields msg) !! "_id" with
    | Some v => bool_decide (v = id)
    | None => true
    end
  else true.

(** The two groups a [changed] field mapping falls into: the fields that
    carry a value, and the fields mapped to [undefined]. *)
Definition set_group (fields : Obj) : Obj :=
  filter (λ kv, kv.2 ≠ VUndefined) fields.

Definition unset_group (fields : Obj) : Obj :=
  (λ _, VNum 1) <$> filter (λ kv, kv.2 = VUndefined) fields.

(** The modifier that holds both groups, each under its operator and only
    when it has a field. *)
Definition partition_modifier (fields : Obj) : gmap string Obj :=
  (if decide (set_group fields = ∅) then ∅ else {[ "$set" := set_group fields ]})
  ∪ (if decide (unset_group fields = ∅) then ∅
     else {[ "$unset" := unset_group fields ]}).

(** ** Invariants of the store *)

(** Every document is filed under the identifier it carries. *)
Definition filed_by_id (ds : gmap Id Obj) : Prop :=
  ∀ k d, ds !! k = Some d → d !! "_id" = Some k.

(** A message that names its document consistently and, if it is a
    [changed] message, leaves ["_id"] alone. *)
Definition keeps_id (_idParse : string → Id) (msg : Msg) : bool :=
  names_own_id _idParse msg
  && (if String.eqb (msg_msg msg) "changed"
      then bool_decide (default ∅ (msg_fields msg) !! "_id" = None)
      else true).

(** ** Sample data

    The store of the scenario of the specification, [{A, B}], and a few
    messages, with identifiers parsed as plain strings. *)

Definition world_of (ds : gmap Id Obj) : World :=
  mkWorld (LocalCollection.mk ds 0) [].

Definition docA : Obj := {[ "_id" := VStr "A"; "name" := VStr "a" ]}.

Definition docB : Obj := {[ "_id" := VStr "B"; "name" := VStr "b" ]}.

Definition docC : Obj := {[ "_id" := VStr "C"; "name" := VStr "c" ]}.

Definition storeAB : World := world_of {[ VStr "A" := docA; VStr "B" := docB ]}.

Definition addA : Msg := mkMsg "added" "A" (Some {[ "name" := VStr "a" ]}) None.

Definition addC : Msg := mkMsg "added" "C" (Some {[ "name" := VStr "c" ]}) None.

Definition removeC : Msg := mkMsg "removed" "C" None None.

Definition changeA : Msg :=
  mkMsg "changed" "A" (Some {[ "name" := VUndefined; "age" := VNum 7 ]}) None.

Definition changeC : Msg := mkMsg "changed" "C" (Some {[ "name" := VStr "x" ]}) None.

Definition unsetC : Msg := mkMsg "replace" "C" None None.

Definition replaceA : Msg :=
  mkMsg "replace" "A" None (Some {[ "_id" := VStr "A"; "age" := VNum 7 ]}).


(** An [added] message whose field mapping names another document. *)
Definition addA_as_C : Msg :=
  mkMsg "added" "A2" (Some {[ "_id" := VStr "C"; "name" := VStr "c" ]}) None.

(** A [replace] message for [C] whose replacement is identified as [B]. *)
Definition replaceC_as_B : Msg :=
  mkMsg "replace" "C" None (Some {[ "_id" := VStr "B"; "age" := VNum 7 ]}).


Definition ping : Msg := mkMsg "ping" "A" None None.

(** A connection on which the name [posts] is taken. *)
Definition busy : Connection :=
  mkConnection 1 (Some (λ name, negb (String.eqb name "posts"))).

Definition client : Environment :=
  mkEnvironment true (ConnObj busy) ConnUndefined false.

(** A connection that accepts every name, and a server that uses it. *)
Definition free : Connection := mkConnection 2 (Some (λ _, true)).

Definition server : Environment :=
  mkEnvironment false ConnUndefined (ConnObj free) true.

(** ** The constructor with its calls into other packages *)

(** The calls the constructor makes into other packages.  Each may throw, and the exception then leaves the
    constructor: [Meteor._debug] (the warning for an anonymous collection),
    [LocalCollection.wrapTransform], [MongoInternals.defaultRemoteCollectionDriver()]
    and [options._driver.open(name, self._connection)]; and whether the call
    [self._connection.registerStore(name, handlers)] returns at all (what it
    returns is [conn_registerStore]). *)
Record Packages : Type := mkPackages {
  Meteor__debug : Result unit;
  LocalCollection_wrapTransform : Result unit;
  MongoInternals_defaultRemoteCollectionDriver_call : Result unit;
  driver_open : Driver → option string → ConnRef → Result unit;
  registerStore_call : Connection → string → Result unit
}.

(** Sequencing of calls that may throw. *)
Definition and_then {A B} (r : Result A) (k : A → Result B) : Result B :=
  match r with
  | Ok a => k a
  | Throw e => Throw e
  end.

Section ConstructorCalls.

Variable pkg : Packages.
Variable env : Environment.

Definition Collection_full (calledWithNew : bool) (name : Value)
    (options : OptionsArg) : Result Instance :=
  if negb calledWithNew then
    Throw (Error ("use " +:+ dquote +:+ "new" +:+ dquote
                  +:+ " to construct a SQL.Collection"))
  else
  let anonymous := negb (truthy name) && negb (bool_decide (name = VNull)) in
  and_then (if anonymous then Meteor__debug pkg else Ok tt) (λ _,
  let name := if anonymous then VNull else name in
  match name with
  | VUndefined | VBool _ | VNum _ | VArray _ | VObject _ =>
      Throw (Error "First argument to new Mongo.Collection must be a string or null")
  | VNull | VStr _ =>
      let name := if name is VStr s then Some s else None in
      let options := normalize_options options in
      let makeNewID :=
        if opt_idGeneration options is Some "MONGO" then MONGO else STRING in
      and_then (LocalCollection_wrapTransform pkg) (λ _,
      let connection := choose_connection env name options in
      and_then
        (match opt__driver options with
         | Some _ => Ok tt
         | None =>
             if name_truthy name && conn_same connection (Meteor_server env)
                && MongoInternals_defaultRemoteCollectionDriver env
             then MongoInternals_defaultRemoteCollectionDriver_call pkg
             else Ok tt
         end) (λ _,
      let driver := choose_driver env name connection options in
      and_then (driver_open pkg driver name connection) (λ _,
      match connection with
      | ConnObj c =>
          match conn_registerStore c with
          | Some registerStore =>
              and_then (registerStore_call pkg c (name_string name)) (λ _,
              let ok := registerStore (name_string name) in
              if negb ok then
                Throw (Error ("There is already a collection named '"
                              +:+ name_string name +:+ "'"))
              else Ok (mkInstance makeNewID connection name driver true))
          | None => Ok (mkInstance makeNewID connection name driver false)
          end
      | _ => Ok (mkInstance makeNewID connection name driver false)
      end)))
  end).

End ConstructorCalls.

(** Packages whose calls all return, and packages in which a driver passed
    in the options has no usable [open]. *)
Definition packages : Packages :=
  mkPackages (Ok tt) (Ok tt) (Ok tt) (λ _ _ _, Ok tt) (λ _ _, Ok tt).


(** The call of [registerStore], when the constructor gets that far. *)
Definition registration_call (pkg : Packages) (name : option string)
    (connection : ConnRef) : Result unit :=
  match connection with
  | ConnObj c =>
      if conn_registerStore c is Some _
      then registerStore_call pkg c (name_string name) else Ok tt
  | _ => Ok tt
  end.

(** * Properties *)

(** Unfolds a handler body down to the store operations. *)
Ltac run :=
  unfold update, beginUpdate, endUpdate, coll_findOne, coll_insert, coll_remove,
    coll_update, coll_pauseObservers, coll_resumeObservers, call_partial,
    call_total, log, mbind, M_bind, bind, mret, M_ret, ret, throw;
  cbn beta iota delta [store calls fst snd].

(** Decides the tag tests of [update] from what is known about the tag. *)
Ltac tag H := rewrite H; cbn [String.eqb Ascii.eqb Bool.eqb].

(** Unfolds a call on the collection, leaving later [update]s folded. *)
Ltac call :=
  unfold coll_insert, coll_remove, coll_update, call_partial, log;
  cbn beta iota delta [store calls fst snd].

Section Properties.

Variable _idParse : string → Id.

Implicit Types (w : World) (msg : Msg) (id : Id) (d r : Obj).

Lemma update_unfold msg w :
  update _idParse msg w =
  (let mongoId := _idParse (msg_id msg) in
   let doc := LocalCollection.docs (store w) !! mongoId in
   let w1 := log (CFindOne mongoId) w in
   if String.eqb (msg_msg msg) "replace" then
     match msg_replace msg with
     | None => if doc is Some _ then coll_remove (SelId mongoId) w1 else (Ok tt, w1)
     | Some replace =>
         if doc is Some _ then coll_update mongoId (Replacement replace) w1
         else coll_insert replace w1
     end
   else if String.eqb (msg_msg msg) "added" then
     if doc is Some _
     then (Throw (Error "Expected not to find a document already present for an add"), w1)
     else coll_insert (extend {[ "_id" := mongoId ]} (msg_fields msg)) w1
   else if String.eqb (msg_msg msg) "removed" then
     if doc is Some _ then coll_remove (SelId mongoId) w1
     else (Throw (Error "Expected to find a document already present for removed"), w1)
   else if String.eqb (msg_msg msg) "changed" then
     if doc is Some _ then
       if isEmpty (msg_fields msg) then (Ok tt, w1)
       else coll_update mongoId
              (Operators (changed_modifier (default ∅ (msg_fields msg)))) w1
     else (Throw (Error "Expected to find a document to change"), w1)
   else (Throw (Error "I don't know how to deal with this message"), w1)).
Proof.
  unfold update, coll_findOne, LocalCollection.findOne, mbind, M_bind, bind,
    mret, M_ret, ret, throw.
  cbn zeta.
  destruct (String.eqb (msg_msg msg) "replace").
  { destruct (msg_replace msg); destruct (LocalCollection.docs (store w) !! _); reflexivity. }
  destruct (String.eqb (msg_msg msg) "added").
  { destruct (LocalCollection.docs (store w) !! _); reflexivity. }
  destruct (String.eqb (msg_msg msg) "removed").
  { destruct (LocalCollection.docs (store w) !! _); reflexivity. }
  destruct (String.eqb (msg_msg msg) "changed").
  { destruct (LocalCollection.docs (store w) !! _); [| reflexivity].
    destruct (isEmpty (msg_fields msg)); reflexivity. }
  reflexivity.
Qed.

(** ** The modifier of a [changed] message *)

Lemma changed_each_lookup key value (m : gmap string Obj) op :
  changed_each key value m !! op =
    if decide (value = VUndefined) then
      if decide (op = "$unset") then Some (<[key := VNum 1]> (default ∅ (m !! "$unset")))
      else m !! op
    else
      if decide (op = "$set") then Some (<[key := value]> (default ∅ (m !! "$set")))
      else m !! op.
Proof.
  unfold changed_each.
  destruct (decide (value = VUndefined)) as [Hv | Hv].
  - destruct (decide (op = "$unset")) as [-> | Hop].
    + destruct (m !! "$unset") eqn:E; cbn zeta.
      * rewrite lookup_insert_eq, E. reflexivity.
      * rewrite lookup_insert_eq, lookup_insert_eq. reflexivity.
    + destruct (m !! "$unset") eqn:E; cbn zeta.
      * rewrite lookup_insert_ne by done. reflexivity.
      * rewrite !lookup_insert_ne by done. reflexivity.
  - destruct (decide (op = "$set")) as [-> | Hop].
    + destruct (m !! "$set") eqn:E; cbn zeta.
      * rewrite lookup_insert_eq, E. reflexivity.
      * rewrite lookup_insert_eq, lookup_insert_eq. reflexivity.
    + destruct (m !! "$set") eqn:E; cbn zeta.
      * rewrite lookup_insert_ne by done. reflexivity.
      * rewrite !lookup_insert_ne by done. reflexivity.
Qed.

Lemma group_lookup (g : Obj) op op' :
  (if decide (g = ∅) then (∅ : gmap string Obj) else {[ op := g ]}) !! op' =
  if decide (op = op') then (if decide (g = ∅) then None else Some g) else None.
Proof.
  destruct (decide (g = ∅)).
  - rewrite lookup_empty. by destruct (decide _).
  - destruct (decide (op = op')) as [-> | ?].
    + by rewrite lookup_singleton_eq.
    + by rewrite lookup_singleton_ne.
Qed.

Lemma partition_modifier_lookup fields op :
  partition_modifier fields !! op =
    if decide (op = "$set") then
      (if decide (set_group fields = ∅) then None else Some (set_group fields))
    else if decide (op = "$unset") then
      (if decide (unset_group fields = ∅) then None else Some (unset_group fields))
    else None.
Proof.
  unfold partition_modifier. rewrite lookup_union, !group_lookup.
  destruct (decide (op = "$set")) as [-> | H1].
  - rewrite decide_True by done. rewrite (decide_False (P := "$unset" = "$set")) by done.
    by destruct (decide (set_group fields = ∅)).
  - rewrite (decide_False (P := "$set" = op)) by done.
    destruct (decide (op = "$unset")) as [-> | H2].
    + rewrite decide_True by done. by destruct (decide (unset_group fields = ∅)).
    + by rewrite decide_False by done.
Qed.
Lemma default_group (g : Obj) :
  default ∅ (if decide (g = ∅) then None else Some g) = g.
Proof. by destruct (decide (g = ∅)) as [-> | ?]. Qed.

Lemma set_group_insert fields key value :
  fields !! key = None →
  set_group (<[key := value]> fields) =
    if decide (value = VUndefined) then set_group fields
    else <[key := value]> (set_group fields).
Proof.
  intros Hk. unfold set_group. destruct (decide (value = VUndefined)) as [Hv | Hv].
  - rewrite map_filter_insert_not'; [done | by intros ? | by rewrite Hk].
  - by rewrite map_filter_insert_True.
Qed.

Lemma unset_group_insert fields key value :
  fields !! key = None →
  unset_group (<[key := value]> fields) =
    if decide (value = VUndefined) then <[key := VNum 1]> (unset_group fields)
    else unset_group fields.
Proof.
  intros Hk. unfold unset_group. destruct (decide (value = VUndefined)) as [Hv | Hv].
  - rewrite map_filter_insert_True by done. by rewrite fmap_insert.
  - rewrite map_filter_insert_not'; [done | done | by rewrite Hk].
Qed.

Lemma partition_modifier_set fields :
  default ∅ (partition_modifier fields !! "$set") = set_group fields.
Proof.
  rewrite partition_modifier_lookup, decide_True by done. apply default_group.
Qed.

Lemma partition_modifier_unset fields :
  default ∅ (partition_modifier fields !! "$unset") = unset_group fields.
Proof.
  rewrite partition_modifier_lookup, decide_False, decide_True by done.
  apply default_group.
Qed.

(** The loop of the [changed] branch computes the partition of the field
    mapping into its set group and its unset group. *)
Lemma changed_modifier_partition fields :
  changed_modifier fields = partition_modifier fields.
Proof.
  unfold changed_modifier.
  apply (map_fold_weak_ind (λ acc m, acc = partition_modifier m)); [done |].
  intros key value m acc Hk ->. apply map_eq; intros op.
  rewrite changed_each_lookup, partition_modifier_set, partition_modifier_unset.
  rewrite !partition_modifier_lookup.
  rewrite (set_group_insert _ _ _ Hk), (unset_group_insert _ _ _ Hk).
  destruct (decide (value = VUndefined)) as [Hv | Hv];
    destruct (decide (op = "$set")) as [Hs | Hs];
    destruct (decide (op = "$unset")) as [Hu | Hu]; try done;
    try (subst op; discriminate);
    rewrite decide_False; [done | apply insert_non_empty | done | apply insert_non_empty].
Qed.
Lemma set_group_lookup fields key :
  set_group fields !! key =
    match fields !! key with
    | Some VUndefined | None => None
    | Some v => Some v
    end.
Proof.
  unfold set_group. rewrite map_lookup_filter.
  destruct (fields !! key) as [v |]; [| done]. cbn.
  destruct (decide (v = VUndefined)) as [-> | Hv].
  - by rewrite option_guard_False by (by intros ?).
  - rewrite option_guard_True by done. by destruct v.
Qed.

Lemma unset_group_lookup fields key :
  unset_group fields !! key =
    match fields !! key with
    | Some VUndefined => Some (VNum 1)
    | _ => None
    end.
Proof.
  unfold unset_group. rewrite lookup_fmap, map_lookup_filter.
  destruct (fields !! key) as [v |]; [| done]. cbn.
  destruct (decide (v = VUndefined)) as [-> | Hv].
  - by rewrite option_guard_True.
  - rewrite option_guard_False by done. by destruct v.
Qed.

(** Applying the partition to a document: a field mapped to [undefined] is
    gone, a field with a value has that value, any other field is kept. *)
Lemma modify_partition_lookup d fields key :
  LocalCollection.modify d (Operators (partition_modifier fields)) !! key =
    match fields !! key with
    | Some VUndefined => None
    | Some v => Some v
    | None => d !! key
    end.
Proof.
  unfold LocalCollection.modify.
  rewrite partition_modifier_set, partition_modifier_unset.
  rewrite lookup_difference, unset_group_lookup, lookup_union, set_group_lookup.
  destruct (fields !! key) as [[] |]; try done; by destruct (d !! key).
Qed.

Lemma modify_partition_change d fields :
  LocalCollection.modify d (Operators (partition_modifier fields))
  = Reference.change fields d.
Proof.
  apply map_eq; intros key. rewrite modify_partition_lookup.
  unfold Reference.change. rewrite lookup_merge.
  destruct (fields !! key) as [[] |], (d !! key); done.
Qed.

Lemma isEmpty_default (fields : option Obj) :
  isEmpty fields = bool_decide (default ∅ fields = ∅).
Proof. destruct fields; [done |]. cbn. by rewrite bool_decide_eq_true_2. Qed.

Lemma idOf_own (doc : Obj) own :
  doc !! "_id" = Some own → LocalCollection.idOf doc = own.
Proof. intros Hown. unfold LocalCollection.idOf. by rewrite Hown. Qed.

(** ** The interpretation rules *)

(** C3. An [added] message for an identifier that is present, and a
    [removed] or [changed] message for an identifier that is absent, throw a
    protocol violation, and the store is exactly as before: the only call made
    on the collection is the lookup. *)
Theorem update_violation_no_side_effect w msg :
  let id := _idParse (msg_id msg) in
  (msg_msg msg = "added" → is_Some (LocalCollection.docs (store w) !! id) →
   ∃ e, update _idParse msg w = (Throw e, mkWorld (store w) (calls w ++ [CFindOne id]))
        ∧ ProtocolViolation e)
  ∧ (msg_msg msg = "removed" ∨ msg_msg msg = "changed" →
     LocalCollection.docs (store w) !! id = None →
     ∃ e, update _idParse msg w = (Throw e, mkWorld (store w) (calls w ++ [CFindOne id]))
          ∧ ProtocolViolation e).
Proof.
  intros id; split.
  - intros Htag [d Hd]. rewrite update_unfold. cbn zeta. tag Htag.
    fold id. rewrite Hd. eexists; split; [reflexivity | exact I].
  - intros [Htag | Htag] Hd; rewrite update_unfold; cbn zeta; tag Htag;
      fold id; rewrite Hd; (eexists; split; [reflexivity | exact I]).
Qed.

(** C7. A message whose tag is none of [replace], [added], [removed] and
    [changed] throws, whatever the store holds, and changes nothing. *)
Theorem update_unrecognized w msg :
  msg_msg msg ≠ "replace" → msg_msg msg ≠ "added" →
  msg_msg msg ≠ "removed" → msg_msg msg ≠ "changed" →
  ∃ e, update _idParse msg w
       = (Throw e, mkWorld (store w) (calls w ++ [CFindOne (_idParse (msg_id msg))]))
       ∧ e = Error "I don't know how to deal with this message"
       ∧ ProtocolViolation e.
Proof.
  intros H1 H2 H3 H4. rewrite update_unfold. cbn zeta.
  apply String.eqb_neq in H1, H2, H3, H4. rewrite H1, H2, H3, H4.
  eexists; split; [reflexivity | split; [reflexivity | exact I]].
Qed.

(** C4. A [replace] message without a replacement removes the document when
    it exists and does nothing when it does not; a second application finds
    the store as the first one left it. *)
Theorem replace_null_idempotent w msg :
  msg_msg msg = "replace" → msg_replace msg = None →
  let id := _idParse (msg_id msg) in
  ∃ w1 w2,
    update _idParse msg w = (Ok tt, w1)
    ∧ LocalCollection.docs (store w1) = delete id (LocalCollection.docs (store w))
    ∧ (LocalCollection.docs (store w) !! id = None →
       store w1 = store w ∧ calls w1 = calls w ++ [CFindOne id])
    ∧ update _idParse msg w1 = (Ok tt, w2)
    ∧ store w2 = store w1.
Proof.
  intros Htag Hrep id.
  assert (Hstep : ∀ w0,
    ∃ w', update _idParse msg w0 = (Ok tt, w')
      ∧ store w' = LocalCollection.mk (delete id (LocalCollection.docs (store w0)))
                                      (LocalCollection.paused (store w0))
      ∧ (LocalCollection.docs (store w0) !! id = None →
         w' = mkWorld (store w0) (calls w0 ++ [CFindOne id]))).
  { intros w0. rewrite update_unfold. cbn zeta. tag Htag. rewrite Hrep. fold id.
    destruct (LocalCollection.docs (store w0) !! id) as [d |] eqn:Hd.
    - run. cbn [LocalCollection.remove]. rewrite Hd.
      eexists; split; [reflexivity |]. split; [reflexivity | done].
    - eexists; split; [reflexivity |]. split; [| done].
      cbn. rewrite delete_id by done. by destruct (store w0). }
  destruct (Hstep w) as (w1 & H1 & Hs1 & Hn1).
  destruct (Hstep w1) as (w2 & H2 & Hs2 & _).
  exists w1, w2. split; [done |]. split; [by rewrite Hs1 |].
  split; [intros Hd; rewrite (Hn1 Hd); done |]. split; [done |].
  rewrite Hs2, Hs1. cbn. rewrite delete_delete_eq. reflexivity.
Qed.
(** C5. A [changed] message for a document that exists: a non-empty field
    mapping reaches the store as one [update] call whose modifier holds the
    set group and the unset group; in the stored document a field mapped to
    [undefined] is gone, every other listed field has its new value and the
    fields not listed are kept.  An empty field mapping changes nothing. *)
Theorem changed_set_unset w msg d :
  msg_msg msg = "changed" →
  let id := _idParse (msg_id msg) in
  let fields := default ∅ (msg_fields msg) in
  LocalCollection.docs (store w) !! id = Some d →
  (fields ≠ ∅ →
   ∃ d',
     update _idParse msg w =
       (Ok tt,
        mkWorld (LocalCollection.mk (<[id := d']> (LocalCollection.docs (store w)))
                                    (LocalCollection.paused (store w)))
                (calls w ++ [CFindOne id;
                             CUpdate id (Operators (partition_modifier fields))]))
     ∧ (∀ key, fields !! key = Some VUndefined → d' !! key = None)
     ∧ (∀ key v, fields !! key = Some v → v ≠ VUndefined → d' !! key = Some v)
     ∧ (∀ key, fields !! key = None → d' !! key = d !! key))
  ∧ (fields = ∅ →
     update _idParse msg w = (Ok tt, mkWorld (store w) (calls w ++ [CFindOne id]))).
Proof.
  intros Htag id fields Hd.
  rewrite update_unfold. cbn zeta. tag Htag. fold id. rewrite Hd.
  rewrite isEmpty_default. fold fields. split.
  - intros Hne. rewrite bool_decide_eq_false_2 by done.
    rewrite changed_modifier_partition. run.
    unfold LocalCollection.update; cbn [LocalCollection.docs LocalCollection.paused].
    rewrite Hd. eexists; split.
    { rewrite <- app_assoc. reflexivity. }
    split; [| split].
    + intros key Hk. by rewrite modify_partition_lookup, Hk.
    + intros key v Hk Hv. rewrite modify_partition_lookup, Hk. by destruct v.
    + intros key Hk. by rewrite modify_partition_lookup, Hk.
  - intros He. rewrite bool_decide_eq_true_2 by done. reflexivity.
Qed.


(** C8. [endUpdate] never throws and makes one call on the collection,
    [resumeObservers]; after a [beginUpdate] that did not pause (a batch of
    at most one message without reset) the resume finds nothing to undo and
    the store is as before. *)
Theorem endUpdate_resumes_once w :
  endUpdate w =
    (Ok tt, mkWorld (LocalCollection.resumeObservers (store w))
                    (calls w ++ [CResumeObservers]))
  ∧ (LocalCollection.paused (store w) = 0%nat →
     LocalCollection.resumeObservers (store w) = store w)
  ∧ (∀ batchSize, (batchSize ≤ 1)%Z →
     LocalCollection.paused (store w) = 0%nat →
     (beginUpdate batchSize false;; endUpdate) w =
       (Ok tt, mkWorld (store w) (calls w ++ [CResumeObservers]))).
Proof.
  assert (Hno : LocalCollection.paused (store w) = 0%nat →
                LocalCollection.resumeObservers (store w) = store w).
  { intros Hp. unfold LocalCollection.resumeObservers. rewrite Hp.
    destruct (store w) as [ds p]; cbn in *. by subst p. }
  split; [reflexivity |]. split; [exact Hno |].
  intros batchSize Hb Hp. run.
  rewrite (proj2 (Z.ltb_ge 1 batchSize)) by lia. cbn.
  by rewrite (Hno Hp).
Qed.
Lemma extend_union (dst : Obj) (src : option Obj) :
  extend dst src = default ∅ src ∪ dst.
Proof. destruct src; cbn; [done |]. by rewrite (left_id_L ∅ (∪)). Qed.

(** C9. An [added] message that is accepted: the document handed to
    [insert] is [{_id: id}] extended by the field mapping of the message.
    An ["_id"] entry of the field mapping overrides the identifier of the
    message; without such an entry the document is identified by the
    identifier of the message. *)
Theorem added_document w msg :
  msg_msg msg = "added" →
  let id := _idParse (msg_id msg) in
  let fields := default ∅ (msg_fields msg) in
  let doc := extend {[ "_id" := id ]} (msg_fields msg) in
  let docs := LocalCollection.docs (store w) in
  docs !! id = None →
  (∃ res w', update _idParse msg w = (res, w')
             ∧ calls w' = calls w ++ [CFindOne id; CInsert doc])
  ∧ (docs !! LocalCollection.idOf doc = None →
     update _idParse msg w =
       (Ok tt, mkWorld (LocalCollection.mk (<[LocalCollection.idOf doc := doc]> docs)
                                           (LocalCollection.paused (store w)))
                       (calls w ++ [CFindOne id; CInsert doc])))
  ∧ (∀ key, key ≠ "_id" → doc !! key = fields !! key)
  ∧ (∀ v, fields !! "_id" = Some v →
          doc !! "_id" = Some v ∧ LocalCollection.idOf doc = v)
  ∧ (fields !! "_id" = None →
     doc !! "_id" = Some id ∧ LocalCollection.idOf doc = id).
Proof.
  intros Htag id fields doc docs Hd.
  assert (Hrun : update _idParse msg w = coll_insert doc (log (CFindOne id) w)).
  { rewrite update_unfold. cbn zeta. tag Htag. fold id docs. by rewrite Hd. }
  assert (Hdoc : ∀ key, doc !! key =
            match fields !! key with
            | Some v => Some v
            | None => if decide (key = "_id") then Some id else None
            end).
  { intros key. unfold doc. rewrite extend_union. fold fields.
    rewrite lookup_union. destruct (fields !! key) as [v |].
    - by destruct ({[ "_id" := id ]} !! key).
    - destruct (decide (key = "_id")) as [-> | Hk].
      + by rewrite lookup_singleton_eq.
      + by rewrite lookup_singleton_ne. }
  split; [| split; [| split; [| split]]].
  - rewrite Hrun. run. unfold LocalCollection.insert.
    destruct (LocalCollection.docs (store w) !! LocalCollection.idOf doc);
      do 2 eexists; (split; [reflexivity |]); cbn; by rewrite <- app_assoc.
  - intros Hfree. rewrite Hrun. run. unfold LocalCollection.insert.
    fold docs. rewrite Hfree. by rewrite <- app_assoc.
  - intros key Hk. rewrite Hdoc. destruct (fields !! key); [done |].
    by rewrite decide_False.
  - intros v Hv. unfold LocalCollection.idOf. by rewrite Hdoc, Hv.
  - intros Hv. unfold LocalCollection.idOf. by rewrite Hdoc, Hv.
Qed.

Lemma beginUpdate_unfold batchSize reset w :
  beginUpdate batchSize reset w =
  (let w1 :=
     if (1 <? batchSize)%Z || reset
     then mkWorld (LocalCollection.pauseObservers (store w)) (calls w ++ [CPauseObservers])
     else w in
   (Ok tt,
    if reset
    then mkWorld (LocalCollection.mk ∅ (LocalCollection.paused (store w1)))
                 (calls w1 ++ [CRemove SelAll])
    else w1)).
Proof. run. by destruct ((1 <? batchSize)%Z || reset), reset. Qed.

(** C2. [beginUpdate] never throws.  It calls [pauseObservers] exactly when
    the batch has more than one message or is a reset; a reset then removes
    every document before any message is applied, so a reset batch that adds
    one document ends with that document alone, whatever the store held; the
    documents are untouched without reset. *)
Theorem beginUpdate_pause_and_reset batchSize reset w :
  ∃ cs w',
    beginUpdate batchSize reset w = (Ok tt, w')
    ∧ calls w' = calls w ++ cs
    ∧ (CPauseObservers ∈ cs ↔ (1 < batchSize)%Z ∨ reset = true)
    ∧ (CRemove SelAll ∈ cs ↔ reset = true)
    ∧ (reset = true → LocalCollection.docs (store w') = ∅)
    ∧ (reset = false → LocalCollection.docs (store w') = LocalCollection.docs (store w))
    ∧ (reset = true → ∀ msg, msg_msg msg = "added" →
       let doc := extend {[ "_id" := _idParse (msg_id msg) ]} (msg_fields msg) in
       ∃ w'', (beginUpdate batchSize reset;; update _idParse msg;; endUpdate) w
              = (Ok tt, w'')
              ∧ LocalCollection.docs (store w'') = {[ LocalCollection.idOf doc := doc ]}).
Proof.
  exists ((if (1 <? batchSize)%Z || reset then [CPauseObservers] else [])
          ++ (if reset then [CRemove SelAll] else [])).
  eexists. split; [apply beginUpdate_unfold |]. cbn zeta.
  destruct reset.
  - rewrite orb_true_r. cbn [store calls LocalCollection.docs].
    split; [by rewrite <- app_assoc |].
    cbn [app]. rewrite !elem_of_cons.
    split; [split; [by right | by left] |].
    split; [split; [done | intros _; right; by left] |].
    split; [done |]. split; [done |].
    intros _ msg Htag.
    set (doc := extend _ (msg_fields msg)).
    unfold mbind, M_bind. unfold bind at 1. rewrite beginUpdate_unfold. cbn zeta.
    rewrite orb_true_r. unfold bind at 1. rewrite update_unfold. cbn zeta. tag Htag.
    cbn [store LocalCollection.docs]. rewrite lookup_empty.
    run. unfold LocalCollection.insert. cbn [LocalCollection.docs].
    rewrite lookup_empty. eexists; split; [reflexivity |]. cbn.
    by rewrite insert_empty.
  - rewrite orb_false_r, app_nil_r. destruct (1 <? batchSize)%Z eqn:E.
    + apply Z.ltb_lt in E. cbn [store calls LocalCollection.docs].
      split; [done |]. rewrite !list_elem_of_singleton.
      split; [split; [by left | done] |]. split; [by split |]. done.
    + apply Z.ltb_ge in E. rewrite app_nil_r, !elem_of_nil.
      split; [done |]. split; [split; [done | intros [? | ?]; [lia | done]] |].
      split; [by split |]. done.
Qed.

(** ** Replaying a sequence of messages *)

(** The document [added] inserts is the reference document when the field
    mapping does not name another identifier. *)
Lemma extend_document id (fields : option Obj) :
  match default ∅ fields !! "_id" with
  | Some v => v = id
  | None => True
  end →
  extend {[ "_id" := id ]} fields = Reference.document id (default ∅ fields).
Proof.
  intros Hid. rewrite extend_union. unfold Reference.document.
  apply map_eq; intros key. rewrite lookup_union.
  destruct (decide (key = "_id")) as [-> | Hk].
  - rewrite lookup_insert_eq, lookup_singleton_eq.
    destruct (default ∅ fields !! "_id"); by subst.
  - rewrite lookup_insert_ne, lookup_singleton_ne by done.
    by destruct (default ∅ fields !! key).
Qed.

Lemma idOf_document id (fields : Obj) :
  LocalCollection.idOf (Reference.document id fields) = id.
Proof.
  unfold LocalCollection.idOf, Reference.document. by rewrite lookup_insert_eq.
Qed.

(** One message: when the reference accepts it, [update] returns and the
    store holds what the reference holds. *)
Lemma update_refines_apply msg w m' :
  names_own_id _idParse msg = true →
  Reference.apply (_idParse (msg_id msg)) msg (LocalCollection.docs (store w)) = Some m' →
  ∃ w', update _idParse msg w = (Ok tt, w') ∧ LocalCollection.docs (store w') = m'.
Proof.
  unfold names_own_id, Reference.apply. rewrite update_unfold. cbn zeta.
  set (id := _idParse (msg_id msg)). set (docs := LocalCollection.docs (store w)).
  destruct (String.eqb (msg_msg msg) "replace").
  { destruct (msg_replace msg) as [r |].
    - intros Hid%bool_decide_eq_true.
      destruct (docs !! id) as [d |] eqn:Hd; intros [= <-]; run.
      + unfold LocalCollection.update. fold docs. rewrite Hd. by eexists.
      + unfold LocalCollection.insert. rewrite (idOf_own _ _ Hid).
        fold docs. rewrite Hd. by eexists.
    - intros _. destruct (docs !! id) as [d |] eqn:Hd; intros [= <-]; run.
      + cbn [LocalCollection.remove]. fold docs. rewrite Hd. by eexists.
      + by eexists. }
  destruct (String.eqb (msg_msg msg) "added").
  { intros Hid. destruct (docs !! id) as [d |] eqn:Hd; intros [= <-].
    rewrite extend_document.
    2:{ destruct (default ∅ (msg_fields msg) !! "_id"); [| done].
        by apply bool_decide_eq_true in Hid. }
    run. unfold LocalCollection.insert. rewrite idOf_document.
    fold docs. rewrite Hd. by eexists. }
  destruct (String.eqb (msg_msg msg) "removed").
  { intros _. destruct (docs !! id) as [d |] eqn:Hd; intros [= <-]; run.
    cbn [LocalCollection.remove]. fold docs. rewrite Hd. by eexists. }
  destruct (String.eqb (msg_msg msg) "changed"); [| done].
  intros _. destruct (docs !! id) as [d |] eqn:Hd; intros [= <-].
  rewrite isEmpty_default. case_bool_decide as He.
  - eexists; split; [reflexivity |]. cbn [store log]. fold docs.
    rewrite He. symmetry. apply insert_id. rewrite Hd. f_equal.
    apply map_eq; intros key. unfold Reference.change.
    rewrite lookup_merge, lookup_empty. by destruct (d !! key).
  - run. unfold LocalCollection.update. fold docs. rewrite Hd.
    rewrite changed_modifier_partition, modify_partition_change. by eexists.
Qed.

(** C1, as the code has it.  For a sequence of messages that name their
    documents consistently and that the reference accepts (the existence
    preconditions hold at each step), applying the sequence through [update]
    succeeds and leaves in the store exactly the map the reference ends
    with. *)
Theorem updates_refine_replay msgs w m' :
  forallb (names_own_id _idParse) msgs = true →
  Reference.replay _idParse msgs (LocalCollection.docs (store w)) = Some m' →
  ∃ w', updates _idParse msgs w = (Ok tt, w') ∧ LocalCollection.docs (store w') = m'.
Proof.
  revert w. induction msgs as [| msg rest IH]; intros w Hwf Hreplay.
  - injection Hreplay as <-. by eexists.
  - cbn [forallb] in Hwf. apply andb_prop in Hwf as [Hmsg Hrest].
    cbn [Reference.replay] in Hreplay.
    destruct (Reference.apply _ msg _) as [m1 |] eqn:Happly; [| done].
    destruct (update_refines_apply _ _ _ Hmsg Happly) as (w1 & Hrun & Hdocs).
    subst m1. destruct (IH w1 Hrest Hreplay) as (w' & Hrun' & Hdocs').
    exists w'. split; [| done].
    cbn [updates]. unfold mbind, M_bind, bind. by rewrite Hrun.
Qed.

(** ** The constructor *)

(** C10. Constructing a collection whose name is a string and for which the
    constructor settles on a connection with a [registerStore] method: when
    that method returns a falsy value for the name, the constructor throws
    the error that says a collection of that name exists. *)
Theorem Collection_name_taken (env : Environment) (name : string) options c
    registerStore :
  choose_connection env (Some name) (normalize_options options) = ConnObj c →
  conn_registerStore c = Some registerStore →
  registerStore name = false →
  Collection env true (VStr name) options =
    Throw (Error ("There is already a collection named '" +:+ name +:+ "'")).
Proof.
  intros Hconn Hreg Hok.
  assert (Hname : name_truthy (Some name) = true).
  { unfold choose_connection in Hconn. by destruct (name_truthy (Some name)). }
  unfold Collection. cbn [negb]. cbn [name_truthy] in Hname.
  cbn [truthy]. rewrite Hname. cbn [negb andb].
  cbn zeta. rewrite Hconn, Hreg. cbn [name_string]. by rewrite Hok.
Qed.

End Properties.

(** * The properties on the sample data *)

Lemma update_violation_no_side_effect_witness :
  (∃ e, update VStr addA storeAB
        = (Throw e, mkWorld (store storeAB) (calls storeAB ++ [CFindOne (VStr "A")]))
        ∧ ProtocolViolation e)
  ∧ (∃ e, update VStr removeC storeAB
          = (Throw e, mkWorld (store storeAB) (calls storeAB ++ [CFindOne (VStr "C")]))
          ∧ ProtocolViolation e)
  ∧ (∃ e, update VStr changeC storeAB
          = (Throw e, mkWorld (store storeAB) (calls storeAB ++ [CFindOne (VStr "C")]))
          ∧ ProtocolViolation e).
Proof.
  split; [| split].
  - apply (proj1 (update_violation_no_side_effect VStr storeAB addA)).
    + reflexivity.
    + exists docA. vm_compute. reflexivity.
  - apply (proj2 (update_violation_no_side_effect VStr storeAB removeC)).
    + left. reflexivity.
    + vm_compute. reflexivity.
  - apply (proj2 (update_violation_no_side_effect VStr storeAB changeC)).
    + right. reflexivity.
    + vm_compute. reflexivity.
Defined.

Lemma update_unrecognized_witness :
  ∃ e, update VStr ping storeAB
       = (Throw e, mkWorld (store storeAB) (calls storeAB ++ [CFindOne (VStr "A")]))
       ∧ e = Error "I don't know how to deal with this message"
       ∧ ProtocolViolation e.
Proof.
  apply (update_unrecognized VStr storeAB ping); vm_compute; discriminate.
Defined.

Lemma replace_null_idempotent_witness :
  msg_msg unsetC = "replace" ∧ msg_replace unsetC = None
  ∧ ∃ w1 w2,
      update VStr unsetC storeAB = (Ok tt, w1)
      ∧ LocalCollection.docs (store w1)
        = delete (VStr "C") (LocalCollection.docs (store storeAB))
      ∧ (LocalCollection.docs (store storeAB) !! VStr "C" = None →
         store w1 = store storeAB ∧ calls w1 = calls storeAB ++ [CFindOne (VStr "C")])
      ∧ update VStr unsetC w1 = (Ok tt, w2)
      ∧ store w2 = store w1.
Proof.
  split; [reflexivity |]. split; [reflexivity |].
  apply (replace_null_idempotent VStr storeAB unsetC); reflexivity.
Defined.

Lemma changed_set_unset_witness :
  LocalCollection.docs (store storeAB) !! VStr "A" = Some docA
  ∧ ∃ d',
      update VStr changeA storeAB =
        (Ok tt,
         mkWorld (LocalCollection.mk (<[VStr "A" := d']> (LocalCollection.docs (store storeAB)))
                                     (LocalCollection.paused (store storeAB)))
                 (calls storeAB
                  ++ [CFindOne (VStr "A");
                      CUpdate (VStr "A")
                        (Operators (partition_modifier
                                      {[ "name" := VUndefined; "age" := VNum 7 ]}))]))
      ∧ d' !! "name" = None
      ∧ d' !! "age" = Some (VNum 7)
      ∧ d' !! "_id" = Some (VStr "A").
Proof.
  split; [vm_compute; reflexivity |].
  destruct (proj1 (changed_set_unset VStr storeAB changeA docA eq_refl
                     ltac:(vm_compute; reflexivity)))
    as (d' & Hrun & Hunset & Hset & Hkeep).
  { cbn [changeA msg_fields default from_option]. apply insert_non_empty. }
  exists d'. split; [exact Hrun |]. split; [| split].
  - apply Hunset. vm_compute. reflexivity.
  - apply Hset; [vm_compute; reflexivity | discriminate].
  - rewrite Hkeep; vm_compute; reflexivity.
Defined.



Lemma endUpdate_resumes_once_witness :
  LocalCollection.paused (store storeAB) = 0%nat
  ∧ LocalCollection.resumeObservers (store storeAB) = store storeAB
  ∧ (beginUpdate 1 false;; endUpdate) storeAB =
      (Ok tt, mkWorld (store storeAB) (calls storeAB ++ [CResumeObservers])).
Proof.
  split; [reflexivity |]. split.
  - apply (proj1 (proj2 (endUpdate_resumes_once storeAB))). reflexivity.
  - apply (proj2 (proj2 (endUpdate_resumes_once storeAB)) 1%Z); [lia | reflexivity].
Defined.

Lemma added_document_witness :
  msg_msg addA_as_C = "added"
  ∧ LocalCollection.docs (store storeAB) !! VStr "A2" = None
  ∧ (∃ res w', update VStr addA_as_C storeAB = (res, w')
               ∧ calls w' = calls storeAB ++ [CFindOne (VStr "A2"); CInsert docC])
  ∧ LocalCollection.idOf (extend {[ "_id" := VStr "A2" ]} (msg_fields addA_as_C)) = VStr "C"
  ∧ LocalCollection.idOf (extend {[ "_id" := VStr "C" ]} (msg_fields addC)) = VStr "C".
Proof.
  split; [reflexivity |]. split; [vm_compute; reflexivity |].
  assert (HA := added_document VStr storeAB addA_as_C eq_refl
                  ltac:(vm_compute; reflexivity)).
  assert (HC := added_document VStr storeAB addC eq_refl
                  ltac:(vm_compute; reflexivity)).
  cbn zeta in HA, HC.
  destruct HA as (Hcall & _ & _ & Hover & _).
  destruct HC as (_ & _ & _ & _ & Hown).
  split; [| split].
  - destruct Hcall as (res & w' & Hrun & Hcalls). exists res, w'.
    split; [exact Hrun |]. rewrite Hcalls. vm_compute. reflexivity.
  - apply (Hover (VStr "C")). vm_compute. reflexivity.
  - apply Hown. vm_compute. reflexivity.
Defined.

Lemma beginUpdate_pause_and_reset_witness :
  ∃ w, (beginUpdate 1 true;; update VStr addC;; endUpdate) storeAB = (Ok tt, w)
       ∧ LocalCollection.docs (store w) = {[ VStr "C" := docC ]}.
Proof.
  destruct (beginUpdate_pause_and_reset VStr 1 true storeAB)
    as (cs & w' & _ & _ & _ & _ & _ & _ & Hreset).
  destruct (Hreset eq_refl addC eq_refl) as (w & Hrun & Hdocs).
  exists w. split; [exact Hrun |]. rewrite Hdocs. vm_compute. reflexivity.
Defined.

(** C1 as stated fails: the reference accepts the message and files the
    document under the identifier of the message; [update] returns as well,
    but the store files the document under the ["_id"] of the field mapping. *)
Lemma updates_refine_replay_counterexample :
  Reference.replay VStr [addA_as_C] (LocalCollection.docs (store (world_of ∅)))
    = Some {[ VStr "A2" := {[ "_id" := VStr "A2"; "name" := VStr "c" ]} ]}
  ∧ updates VStr [addA_as_C] (world_of ∅)
    = (Ok tt, mkWorld (LocalCollection.mk {[ VStr "C" := docC ]} 0)
                      [CFindOne (VStr "A2"); CInsert docC])
  ∧ ({[ VStr "C" := docC ]} : gmap Id Obj)
    ≠ {[ VStr "A2" := {[ "_id" := VStr "A2"; "name" := VStr "c" ]} ]}.
Proof.
  split; [vm_compute; reflexivity |]. split; [vm_compute; reflexivity |].
  intros Heq. apply (f_equal (λ m : gmap Id Obj, m !! VStr "C")) in Heq.
  rewrite lookup_singleton_eq, lookup_singleton_ne in Heq by discriminate.
  discriminate Heq.
Qed.

Lemma updates_refine_replay_witness :
  forallb (names_own_id VStr) [addC; changeA; replaceA; removeC; unsetC] = true
  ∧ ∃ w', updates VStr [addC; changeA; replaceA; removeC; unsetC] storeAB = (Ok tt, w')
          ∧ LocalCollection.docs (store w')
            = {[ VStr "A" := {[ "_id" := VStr "A"; "age" := VNum 7 ]};
                 VStr "B" := docB ]}.
Proof.
  split; [vm_compute; reflexivity |].
  apply (updates_refine_replay VStr [addC; changeA; replaceA; removeC; unsetC] storeAB).
  - vm_compute; reflexivity.
  - vm_compute; reflexivity.
Defined.

Lemma Collection_name_taken_witness :
  choose_connection client (Some "posts") (normalize_options NoOptions) = ConnObj busy
  ∧ Collection client true (VStr "posts") NoOptions =
      Throw (Error "There is already a collection named 'posts'").
Proof.
  split; [reflexivity |].
  apply (Collection_name_taken client "posts" NoOptions busy
           (λ name, negb (String.eqb name "posts"))); reflexivity.
Defined.

(** * Further properties of the handlers *)

Section HandlerProperties.

Variable _idParse : string → Id.

(** What one [update] does to the world: the lookup, then nothing more, or
    one insert, one removal or one update of the document of the message. *)
Lemma update_outcome (msg : Msg) (ds : gmap Id Obj) (p : nat) (cs0 : list Call) :
  let id := _idParse (msg_id msg) in
  ∃ res ds' cs,
    update _idParse msg (mkWorld (LocalCollection.mk ds p) cs0)
      = (res, mkWorld (LocalCollection.mk ds' p) (cs0 ++ CFindOne id :: cs))
    ∧ ((cs = [] ∧ ds' = ds ∧ (res = Ok tt ∨ ∃ m, res = Throw (Error m)))
       ∨ (∃ doc, cs = [CInsert doc]
            ∧ ((res = Ok tt ∧ ds !! LocalCollection.idOf doc = None
                ∧ ds' = <[LocalCollection.idOf doc := doc]> ds)
               ∨ (res = Throw DuplicateKey
                  ∧ is_Some (ds !! LocalCollection.idOf doc) ∧ ds' = ds)))
       ∨ (cs = [CRemove (SelId id)] ∧ res = Ok tt ∧ is_Some (ds !! id)
          ∧ ds' = delete id ds)
       ∨ (∃ m d, cs = [CUpdate id m] ∧ res = Ok tt ∧ ds !! id = Some d
            ∧ ds' = <[id := LocalCollection.modify d m]> ds)).
Proof.
  intros id.
  assert (Hins : ∀ doc,
    ∃ res ds' cs,
      coll_insert doc (log (CFindOne id) (mkWorld (LocalCollection.mk ds p) cs0))
        = (res, mkWorld (LocalCollection.mk ds' p) (cs0 ++ CFindOne id :: cs))
      ∧ cs = [CInsert doc]
      ∧ ((res = Ok tt ∧ ds !! LocalCollection.idOf doc = None
          ∧ ds' = <[LocalCollection.idOf doc := doc]> ds)
         ∨ (res = Throw DuplicateKey
            ∧ is_Some (ds !! LocalCollection.idOf doc) ∧ ds' = ds))).
  { intros doc. run. unfold LocalCollection.insert. cbn [LocalCollection.docs LocalCollection.paused].
    destruct (ds !! LocalCollection.idOf doc) as [d |] eqn:Hd.
    - exists (Throw DuplicateKey), ds, [CInsert doc]. rewrite <- app_assoc.
      split; [reflexivity |]. split; [reflexivity |]. right. by eauto.
    - exists (Ok tt), (<[LocalCollection.idOf doc := doc]> ds), [CInsert doc].
      rewrite <- app_assoc. split; [reflexivity |]. split; [reflexivity |]. by left. }
  assert (Hrem : ∀ d, ds !! id = Some d →
    coll_remove (SelId id) (log (CFindOne id) (mkWorld (LocalCollection.mk ds p) cs0))
      = (Ok tt, mkWorld (LocalCollection.mk (delete id ds) p)
                        (cs0 ++ CFindOne id :: [CRemove (SelId id)]))).
  { intros d Hd. run. cbn [LocalCollection.remove LocalCollection.docs LocalCollection.paused].
    rewrite Hd. by rewrite <- app_assoc. }
  assert (Hupd : ∀ m d, ds !! id = Some d →
    coll_update id m (log (CFindOne id) (mkWorld (LocalCollection.mk ds p) cs0))
      = (Ok tt, mkWorld (LocalCollection.mk (<[id := LocalCollection.modify d m]> ds) p)
                        (cs0 ++ CFindOne id :: [CUpdate id m]))).
  { intros m d Hd. run. unfold LocalCollection.update.
    cbn [LocalCollection.docs LocalCollection.paused]. rewrite Hd. by rewrite <- app_assoc. }
  assert (Hnone : ∀ res, res = Ok tt ∨ (∃ m, res = Throw (Error m)) →
    ∃ res' ds' cs,
      (res, log (CFindOne id) (mkWorld (LocalCollection.mk ds p) cs0))
        = (res', mkWorld (LocalCollection.mk ds' p) (cs0 ++ CFindOne id :: cs))
      ∧ cs = [] ∧ ds' = ds ∧ (res' = Ok tt ∨ ∃ m, res' = Throw (Error m))).
  { intros res Hres. exists res, ds, []. by repeat split. }
  rewrite update_unfold. cbn zeta. fold id.
  cbn [store LocalCollection.docs].
  destruct (String.eqb (msg_msg msg) "replace").
  { destruct (msg_replace msg) as [r |], (ds !! id) as [d |] eqn:Hd.
    - rewrite (Hupd _ d eq_refl). do 3 eexists. split; [reflexivity |].
      do 3 right. by eauto 10.
    - destruct (Hins r) as (res & ds' & cs & -> & -> & H).
      do 3 eexists. split; [reflexivity |]. right; left. by eauto.
    - rewrite (Hrem d eq_refl). do 3 eexists. split; [reflexivity |].
      do 2 right; left. by eauto.
    - destruct (Hnone (Ok tt)) as (res & ds' & cs & -> & H); [by left |].
      do 3 eexists. split; [reflexivity |]. by left. }
  destruct (String.eqb (msg_msg msg) "added").
  { destruct (ds !! id) as [d |] eqn:Hd.
    - destruct (Hnone (Throw (Error "Expected not to find a document already present for an add")))
        as (res & ds' & cs & -> & H); [by eauto |].
      do 3 eexists. split; [reflexivity |]. by left.
    - destruct (Hins (extend {[ "_id" := id ]} (msg_fields msg)))
        as (res & ds' & cs & -> & -> & H).
      do 3 eexists. split; [reflexivity |]. right; left. by eauto. }
  destruct (String.eqb (msg_msg msg) "removed").
  { destruct (ds !! id) as [d |] eqn:Hd.
    - rewrite (Hrem d eq_refl). do 3 eexists. split; [reflexivity |].
      do 2 right; left. by eauto.
    - destruct (Hnone (Throw (Error "Expected to find a document already present for removed")))
        as (res & ds' & cs & -> & H); [by eauto |].
      do 3 eexists. split; [reflexivity |]. by left. }
  destruct (String.eqb (msg_msg msg) "changed").
  { destruct (ds !! id) as [d |] eqn:Hd.
    - destruct (isEmpty (msg_fields msg)).
      + destruct (Hnone (Ok tt)) as (res & ds' & cs & -> & H); [by left |].
        do 3 eexists. split; [reflexivity |]. by left.
      + rewrite (Hupd _ d eq_refl). do 3 eexists. split; [reflexivity |].
        do 3 right. by eauto 10.
    - destruct (Hnone (Throw (Error "Expected to find a document to change")))
        as (res & ds' & cs & -> & H); [by eauto |].
      do 3 eexists. split; [reflexivity |]. by left. }
  destruct (Hnone (Throw (Error "I don't know how to deal with this message")))
    as (res & ds' & cs & -> & H); [by eauto |].
  do 3 eexists. split; [reflexivity |]. by left.
Qed.


(** X1. Whenever [update] throws, for whatever reason, the store is the one
    it started from. *)
Theorem update_throw_keeps_store (msg : Msg) (w w' : World) (e : Exn) :
  update _idParse msg w = (Throw e, w') → store w' = store w.
Proof.
  destruct w as [[ds p] cs0]. intros Hrun.
  destruct (update_outcome msg ds p cs0) as (res & ds' & cs & Heq & Hcase).
  rewrite Heq in Hrun. injection Hrun as -> <-. cbn.
  destruct Hcase as [(_ & -> & _) | [(doc & _ & [(? & _) | (_ & _ & ->)])
                    | [(_ & ? & _) | (m & d & _ & ? & _)]]]; done.
Qed.

(** X2. One [update] makes the lookup first and then at most one more call
    on the collection: an insert, or a removal or update of the document of
    the message.  It never pauses or resumes the observers and never empties
    the collection. *)
Theorem update_calls (msg : Msg) (w w' : World) (res : Result unit) :
  update _idParse msg w = (res, w') →
  let id := _idParse (msg_id msg) in
  LocalCollection.paused (store w') = LocalCollection.paused (store w)
  ∧ ∃ cs, calls w' = calls w ++ CFindOne id :: cs
          ∧ (cs = [] ∨ (∃ doc, cs = [CInsert doc]) ∨ cs = [CRemove (SelId id)]
             ∨ ∃ m, cs = [CUpdate id m]).
Proof.
  destruct w as [[ds p] cs0]. intros Hrun id.
  destruct (update_outcome msg ds p cs0) as (res' & ds' & cs & Heq & Hcase).
  rewrite Heq in Hrun. injection Hrun as <- <-. cbn. split; [reflexivity |].
  exists cs. split; [reflexivity |].
  destruct Hcase as [(-> & _) | [(doc & -> & _) | [(-> & _) | (m & d & -> & _)]]];
    by eauto 6.
Qed.

(** X3. One [update] changes at most one document: there is an identifier
    such that every other identifier maps to what it mapped to before; it is
    the identifier of the message unless a document was inserted, and then
    it is the identifier of that document. *)
Theorem update_frame (msg : Msg) (w w' : World) (res : Result unit) :
  update _idParse msg w = (res, w') →
  let id := _idParse (msg_id msg) in
  ∃ k, (k = id
        ∨ ∃ doc, calls w' = calls w ++ [CFindOne id; CInsert doc]
                 ∧ k = LocalCollection.idOf doc)
       ∧ ∀ k', k' ≠ k →
           LocalCollection.docs (store w') !! k' = LocalCollection.docs (store w) !! k'.
Proof.
  destruct w as [[ds p] cs0]. intros Hrun id.
  destruct (update_outcome msg ds p cs0) as (res' & ds' & cs & Heq & Hcase).
  rewrite Heq in Hrun. injection Hrun as <- <-. cbn. fold id.
  destruct Hcase as [(_ & -> & _) | [(doc & -> & Hins)
                    | [(_ & _ & _ & ->) | (m & d & _ & _ & _ & ->)]]].
  - exists id. split; [by left | done].
  - exists (LocalCollection.idOf doc). split; [right; by exists doc |].
    intros k' Hk'. destruct Hins as [(_ & _ & ->) | (_ & _ & ->)]; [| done].
    by rewrite lookup_insert_ne.
  - exists id. split; [by left |]. intros k' Hk'. by rewrite lookup_delete_ne.
  - exists id. split; [by left |]. intros k' Hk'. by rewrite lookup_insert_ne.
Qed.

Lemma update_paused (msg : Msg) (w : World) :
  LocalCollection.paused (store (update _idParse msg w).2)
  = LocalCollection.paused (store w).
Proof.
  destruct w as [[ds p] cs0].
  destruct (update_outcome msg ds p cs0) as (res & ds' & cs & -> & _). reflexivity.
Qed.

(** The result of [update] and the documents it leaves depend on the
    documents it finds only, not on the pause depth nor on the call log. *)
Lemma update_docs_only (msg : Msg) (ds : gmap Id Obj) p1 c1 p2 c2 :
  (update _idParse msg (mkWorld (LocalCollection.mk ds p1) c1)).1
  = (update _idParse msg (mkWorld (LocalCollection.mk ds p2) c2)).1
  ∧ LocalCollection.docs (store (update _idParse msg (mkWorld (LocalCollection.mk ds p1) c1)).2)
    = LocalCollection.docs (store (update _idParse msg (mkWorld (LocalCollection.mk ds p2) c2)).2).
Proof.
  rewrite !update_unfold. cbn zeta. cbn [store LocalCollection.docs].
  set (id := _idParse (msg_id msg)).
  assert (Hins : ∀ doc q1 k1 q2 k2,
    (coll_insert doc (mkWorld (LocalCollection.mk ds q1) k1)).1
    = (coll_insert doc (mkWorld (LocalCollection.mk ds q2) k2)).1
    ∧ LocalCollection.docs (store (coll_insert doc (mkWorld (LocalCollection.mk ds q1) k1)).2)
      = LocalCollection.docs (store (coll_insert doc (mkWorld (LocalCollection.mk ds q2) k2)).2)).
  { intros. run. unfold LocalCollection.insert. cbn [LocalCollection.docs].
    by destruct (ds !! LocalCollection.idOf doc). }
  assert (Hrem : ∀ q1 k1 q2 k2,
    (coll_remove (SelId id) (mkWorld (LocalCollection.mk ds q1) k1)).1
    = (coll_remove (SelId id) (mkWorld (LocalCollection.mk ds q2) k2)).1
    ∧ LocalCollection.docs (store (coll_remove (SelId id) (mkWorld (LocalCollection.mk ds q1) k1)).2)
      = LocalCollection.docs (store (coll_remove (SelId id) (mkWorld (LocalCollection.mk ds q2) k2)).2)).
  { intros. run. cbn [LocalCollection.remove LocalCollection.docs].
    by destruct (ds !! id). }
  assert (Hupd : ∀ m q1 k1 q2 k2,
    (coll_update id m (mkWorld (LocalCollection.mk ds q1) k1)).1
    = (coll_update id m (mkWorld (LocalCollection.mk ds q2) k2)).1
    ∧ LocalCollection.docs (store (coll_update id m (mkWorld (LocalCollection.mk ds q1) k1)).2)
      = LocalCollection.docs (store (coll_update id m (mkWorld (LocalCollection.mk ds q2) k2)).2)).
  { intros. run. unfold LocalCollection.update. cbn [LocalCollection.docs].
    by destruct (ds !! id). }
  unfold log. cbn [store calls].
  destruct (String.eqb (msg_msg msg) "replace").
  { destruct (msg_replace msg), (ds !! id); done. }
  destruct (String.eqb (msg_msg msg) "added").
  { destruct (ds !! id); done. }
  destruct (String.eqb (msg_msg msg) "removed").
  { destruct (ds !! id); done. }
  destruct (String.eqb (msg_msg msg) "changed"); [| done].
  destruct (ds !! id); [| done]. destruct (isEmpty (msg_fields msg)); done.
Qed.

Lemma updates_docs_only (msgs : list Msg) (ds : gmap Id Obj) p1 c1 p2 c2 :
  (updates _idParse msgs (mkWorld (LocalCollection.mk ds p1) c1)).1
  = (updates _idParse msgs (mkWorld (LocalCollection.mk ds p2) c2)).1
  ∧ LocalCollection.docs (store (updates _idParse msgs (mkWorld (LocalCollection.mk ds p1) c1)).2)
    = LocalCollection.docs (store (updates _idParse msgs (mkWorld (LocalCollection.mk ds p2) c2)).2).
Proof.
  revert ds p1 c1 p2 c2. induction msgs as [| msg rest IH]; intros ds p1 c1 p2 c2.
  - done.
  - cbn [updates]. unfold mbind, M_bind, bind.
    destruct (update_docs_only msg ds p1 c1 p2 c2) as [Hres Hdocs].
    destruct (update _idParse msg (mkWorld (LocalCollection.mk ds p1) c1))
      as [r1 [[ds1 q1] k1]].
    destruct (update _idParse msg (mkWorld (LocalCollection.mk ds p2) c2))
      as [r2 [[ds2 q2] k2]].
    cbn in Hres, Hdocs. subst r2 ds2. destruct r1 as [[] | e]; [apply IH | done].
Qed.

Lemma updates_paused (msgs : list Msg) (w : World) :
  LocalCollection.paused (store (updates _idParse msgs w).2)
  = LocalCollection.paused (store w).
Proof.
  revert w. induction msgs as [| msg rest IH]; intros w; [done |].
  cbn [updates]. unfold mbind, M_bind, bind.
  pose proof (update_paused msg w) as Hp.
  destruct (update _idParse msg w) as [[[] | e] w1]; cbn in Hp |- *.
  - by rewrite IH.
  - done.
Qed.

(** X4. A reset batch replays from scratch: whatever the store held and
    whatever the pause depth and the batch size, the outcome of the batch and
    the documents it leaves are those of applying the messages to an empty
    collection. *)
Theorem reset_batch_from_scratch (batchSize : Z) (msgs : list Msg) (w : World) :
  ((beginUpdate batchSize true;; updates _idParse msgs;; endUpdate) w).1
  = (updates _idParse msgs (mkWorld (LocalCollection.mk ∅ 0) [])).1
  ∧ LocalCollection.docs
      (store ((beginUpdate batchSize true;; updates _idParse msgs;; endUpdate) w).2)
    = LocalCollection.docs
        (store (updates _idParse msgs (mkWorld (LocalCollection.mk ∅ 0) [])).2).
Proof.
  set (r := (beginUpdate batchSize true;; updates _idParse msgs;; endUpdate) w).
  set (w0 := mkWorld (LocalCollection.mk ∅ (S (LocalCollection.paused (store w))))
                     ((calls w ++ [CPauseObservers]) ++ [CRemove SelAll])).
  assert (Hr : r = match updates _idParse msgs w0 with
                   | (Ok _, w1) => endUpdate w1
                   | (Throw e, w1) => (Throw e, w1)
                   end).
  { unfold r, mbind, M_bind, bind. rewrite beginUpdate_unfold. cbn zeta.
    by rewrite orb_true_r. }
  clearbody r. subst r.
  destruct (updates_docs_only msgs ∅ (S (LocalCollection.paused (store w)))
              ((calls w ++ [CPauseObservers]) ++ [CRemove SelAll]) 0%nat [])
    as [Hres Hdocs].
  fold w0 in Hres, Hdocs.
  destruct (updates _idParse msgs w0) as [r1 w1].
  cbn in Hres, Hdocs. rewrite <- Hres, <- Hdocs.
  destruct r1 as [[] | e]; done.
Qed.

(** X5. The pause depth across a batch whose messages all apply: a batch
    that paused (more than one message, or a reset) ends at the depth it
    started from; a batch that did not pause still resumes once. *)
Theorem batch_pause_depth (batchSize : Z) (reset : bool) (msgs : list Msg)
    (w w' : World) :
  (beginUpdate batchSize reset;; updates _idParse msgs;; endUpdate) w = (Ok tt, w') →
  LocalCollection.paused (store w')
  = if (1 <? batchSize)%Z || reset then LocalCollection.paused (store w)
    else Nat.pred (LocalCollection.paused (store w)).
Proof.
  unfold mbind, M_bind. unfold bind at 1. rewrite beginUpdate_unfold. cbn zeta.
  unfold bind.
  match goal with
  | |- context [updates _idParse msgs ?w0] =>
      pose proof (updates_paused msgs w0) as Hp;
      destruct (updates _idParse msgs w0) as [[[] | e] w1]
  end; [| done].
  intros [= <-]. cbn in Hp |- *. rewrite Hp.
  by destruct ((1 <? batchSize)%Z || reset), reset.
Qed.

End HandlerProperties.

Section HandlerAlgebra.

Variable _idParse : string → Id.

(** X6. When [update] returns normally: a [removed] or [changed] message
    exactly when the document exists; an [added] message exactly when the
    identifier of the message is absent and the identifier of the new
    document is free; a [replace] message without replacement always; one
    with a replacement exactly when the document exists or the identifier of
    the replacement is free. *)
Theorem update_returns_iff (msg : Msg) (w : World) :
  let id := _idParse (msg_id msg) in
  let ds := LocalCollection.docs (store w) in
  let ok := (update _idParse msg w).1 = Ok tt in
  (msg_msg msg = "removed" ∨ msg_msg msg = "changed" → ok ↔ is_Some (ds !! id))
  ∧ (msg_msg msg = "added" →
     ok ↔ ds !! id = None
          ∧ ds !! LocalCollection.idOf (extend {[ "_id" := id ]} (msg_fields msg)) = None)
  ∧ (msg_msg msg = "replace" → msg_replace msg = None → ok)
  ∧ (msg_msg msg = "replace" → ∀ r, msg_replace msg = Some r →
     ok ↔ is_Some (ds !! id) ∨ ds !! LocalCollection.idOf r = None).
Proof.
  intros id ds ok. subst ok. rewrite update_unfold. cbn zeta. fold id ds.
  split; [| split; [| split]].
  - intros [Htag | Htag]; tag Htag; destruct (ds !! id) as [d |] eqn:Hd.
    + call. cbn [LocalCollection.remove]. fold ds. rewrite Hd. cbn. by split; eauto.
    + cbn. split; [done | by intros []].
    + destruct (isEmpty (msg_fields msg)); [cbn; by split; eauto |].
      call. unfold LocalCollection.update. fold ds. rewrite Hd. cbn. by split; eauto.
    + cbn. split; [done | by intros []].
  - intros Htag. tag Htag. destruct (ds !! id) as [d |] eqn:Hd.
    + cbn. split; [done | by intros []].
    + call. unfold LocalCollection.insert. fold ds.
      destruct (ds !! LocalCollection.idOf _); cbn; [split; [done | by intros []] | done].
  - intros Htag Hrep. tag Htag. rewrite Hrep. destruct (ds !! id) as [d |] eqn:Hd.
    + call. cbn [LocalCollection.remove]. fold ds. by rewrite Hd.
    + done.
  - intros Htag r Hrep. tag Htag. rewrite Hrep. destruct (ds !! id) as [d |] eqn:Hd.
    + call. unfold LocalCollection.update. fold ds. rewrite Hd. cbn. by split; eauto.
    + call. unfold LocalCollection.insert. fold ds.
      destruct (ds !! LocalCollection.idOf r); cbn.
      * split; [done | by intros [[] |]].
      * split; [by right | done].
Qed.

(** X7. Adding a document and then removing it gives back the documents the
    store had, provided the field mapping of the [added] message does not name
    another identifier. *)
Theorem added_removed_round_trip (a r : Msg) (w : World) :
  msg_msg a = "added" → msg_msg r = "removed" → msg_id r = msg_id a →
  names_own_id _idParse a = true →
  LocalCollection.docs (store w) !! _idParse (msg_id a) = None →
  ∃ w', updates _idParse [a; r] w = (Ok tt, w')
        ∧ store w' = store w.
Proof.
  intros Ha Hr Hid Hown Hd. destruct w as [[ds p] cs0]. cbn in Hd.
  cbn [updates]. unfold mbind, M_bind, bind.
  rewrite update_unfold. cbn zeta. tag Ha. cbn [store LocalCollection.docs].
  rewrite Hd. rewrite extend_document.
  2:{ unfold names_own_id in Hown. rewrite Ha in Hown. cbn in Hown.
      destruct (default ∅ (msg_fields a) !! "_id"); [| done].
      by apply bool_decide_eq_true in Hown. }
  call. unfold LocalCollection.insert. rewrite idOf_document.
  cbn [LocalCollection.docs LocalCollection.paused]. rewrite Hd.
  rewrite update_unfold. cbn zeta. tag Hr. rewrite Hid.
  cbn [store LocalCollection.docs]. rewrite lookup_insert_eq.
  call. cbn [LocalCollection.remove LocalCollection.docs LocalCollection.paused].
  rewrite lookup_insert_eq. eexists. split; [reflexivity |]. cbn.
  by rewrite delete_insert_id.
Qed.

Lemma modify_partition_idem (d fields : Obj) :
  LocalCollection.modify
    (LocalCollection.modify d (Operators (partition_modifier fields)))
    (Operators (partition_modifier fields))
  = LocalCollection.modify d (Operators (partition_modifier fields)).
Proof.
  apply map_eq; intros key. rewrite !modify_partition_lookup.
  by destruct (fields !! key) as [[] |].
Qed.

(** X8. A [changed] message is idempotent: applied a second time it has the
    result of the first application and leaves the store as the first one
    left it. *)
Theorem changed_idempotent (msg : Msg) (w : World) :
  msg_msg msg = "changed" →
  let first := update _idParse msg w in
  let second := update _idParse msg first.2 in
  second.1 = first.1 ∧ store second.2 = store first.2.
Proof.
  intros Htag. cbn zeta. destruct w as [[ds p] cs0].
  rewrite (update_unfold _ _ (mkWorld _ _)). cbn zeta. tag Htag.
  cbn [store LocalCollection.docs].
  set (id := _idParse (msg_id msg)).
  destruct (ds !! id) as [d |] eqn:Hd.
  - destruct (isEmpty (msg_fields msg)) eqn:He.
    + cbn [snd fst]. rewrite update_unfold. cbn zeta. tag Htag. fold id.
      cbn [store log LocalCollection.docs]. by rewrite Hd, He.
    + call. unfold LocalCollection.update.
      cbn [LocalCollection.docs LocalCollection.paused]. rewrite Hd. cbn [snd fst].
      rewrite update_unfold. cbn zeta. tag Htag. fold id.
      cbn [store LocalCollection.docs]. rewrite lookup_insert_eq, He.
      call. unfold LocalCollection.update.
      cbn [LocalCollection.docs LocalCollection.paused]. rewrite lookup_insert_eq.
      cbn [snd fst store]. split; [done |].
      rewrite insert_insert_eq, changed_modifier_partition.
      by rewrite modify_partition_idem.
  - cbn [snd fst]. rewrite update_unfold. cbn zeta. tag Htag. fold id.
    cbn [store log LocalCollection.docs]. by rewrite Hd.
Qed.


End HandlerAlgebra.

(** * The modifier and the filing of documents *)

(** X10. The modifier built for a [changed] message: its only properties are
    ["$set"] and ["$unset"], neither is ever an empty object, and it is
    empty only for an empty field mapping; every field with a value is in the
    set group with that value and not in the unset group, every field mapped
    to [undefined] is in the unset group (with value 1) and not in the set
    group, and no other key occurs in either. *)
Theorem changed_modifier_operators (fields : Obj) :
  let set := default ∅ (changed_modifier fields !! "$set") in
  let unset := default ∅ (changed_modifier fields !! "$unset") in
  (∀ op g, changed_modifier fields !! op = Some g →
           (op = "$set" ∨ op = "$unset") ∧ g ≠ ∅)
  ∧ (changed_modifier fields = ∅ ↔ fields = ∅)
  ∧ (∀ key v, fields !! key = Some v → v ≠ VUndefined →
              set !! key = Some v ∧ unset !! key = None)
  ∧ (∀ key, fields !! key = Some VUndefined →
            unset !! key = Some (VNum 1) ∧ set !! key = None)
  ∧ (∀ key, fields !! key = None → set !! key = None ∧ unset !! key = None).
Proof.
  intros set unset. subst set unset. rewrite changed_modifier_partition.
  rewrite partition_modifier_set, partition_modifier_unset.
  assert (Hops : ∀ op g, partition_modifier fields !! op = Some g →
                         (op = "$set" ∨ op = "$unset") ∧ g ≠ ∅).
  { intros op g. rewrite partition_modifier_lookup.
    destruct (decide (op = "$set")) as [-> | Hs].
    - destruct (decide (set_group fields = ∅)); [done |]. intros [= <-]. by eauto.
    - destruct (decide (op = "$unset")) as [-> | Hu]; [| done].
      destruct (decide (unset_group fields = ∅)); [done |]. intros [= <-]. by eauto. }
  split; [exact Hops |]. split; [| split; [| split]].
  - split.
    + intros Hempty. apply map_empty; intros key.
      destruct (fields !! key) as [v |] eqn:Hkey; [exfalso | done].
      destruct (decide (v = VUndefined)) as [-> | Hv].
      * assert (Hin : unset_group fields !! key = Some (VNum 1))
          by (by rewrite unset_group_lookup, Hkey).
        assert (Hlook := partition_modifier_lookup fields "$unset").
        rewrite Hempty, lookup_empty in Hlook. cbn in Hlook.
        destruct (decide (unset_group fields = ∅)) as [He |]; [| done].
        by rewrite He, lookup_empty in Hin.
      * assert (Hin : set_group fields !! key = Some v)
          by (rewrite set_group_lookup, Hkey; by destruct v).
        assert (Hlook := partition_modifier_lookup fields "$set").
        rewrite Hempty, lookup_empty in Hlook. cbn in Hlook.
        destruct (decide (set_group fields = ∅)) as [He |]; [| done].
        by rewrite He, lookup_empty in Hin.
    + intros ->. unfold partition_modifier, set_group, unset_group.
      rewrite !map_filter_empty, fmap_empty, !decide_True by done.
      by rewrite (left_id_L ∅ (∪)).
  - intros key v Hkey Hv. rewrite set_group_lookup, unset_group_lookup, Hkey.
    by destruct v.
  - intros key Hkey. by rewrite set_group_lookup, unset_group_lookup, Hkey.
  - intros key Hkey. by rewrite set_group_lookup, unset_group_lookup, Hkey.
Qed.

Section StoreInvariant.

Variable _idParse : string → Id.

Lemma filed_insert (ds : gmap Id Obj) (k : Id) (d : Obj) :
  filed_by_id ds → d !! "_id" = Some k → filed_by_id (<[k := d]> ds).
Proof.
  intros Hds Hd k' d' [[<- <-] | [_ Hk']]%lookup_insert_Some; [done |].
  by apply Hds.
Qed.

Lemma filed_delete (ds : gmap Id Obj) (k : Id) :
  filed_by_id ds → filed_by_id (delete k ds).
Proof. intros Hds k' d' [_ Hk']%lookup_delete_Some. by apply Hds. Qed.

Lemma update_keeps_filing (msg : Msg) (w : World) :
  keeps_id _idParse msg = true →
  filed_by_id (LocalCollection.docs (store w)) →
  filed_by_id (LocalCollection.docs (store (update _idParse msg w).2)).
Proof.
  unfold keeps_id, names_own_id. intros Hmsg Hds. destruct w as [[ds p] cs0].
  cbn [store LocalCollection.docs] in Hds.
  rewrite update_unfold. cbn zeta. cbn [store LocalCollection.docs].
  set (id := _idParse (msg_id msg)) in *.
  destruct (String.eqb (msg_msg msg) "replace").
  { destruct (msg_replace msg) as [r |], (ds !! id) as [d |] eqn:Hd.
    - apply andb_prop in Hmsg as [Hr%bool_decide_eq_true _].
      call. unfold LocalCollection.update. cbn [LocalCollection.docs]. rewrite Hd.
      cbn. by apply filed_insert.
    - apply andb_prop in Hmsg as [Hr%bool_decide_eq_true _].
      call. unfold LocalCollection.insert. rewrite (idOf_own _ _ Hr).
      cbn [LocalCollection.docs]. rewrite Hd. cbn. by apply filed_insert.
    - call. cbn [LocalCollection.remove LocalCollection.docs]. rewrite Hd.
      cbn. by apply filed_delete.
    - done. }
  destruct (String.eqb (msg_msg msg) "added").
  { destruct (ds !! id) as [d |] eqn:Hd; [done |].
    apply andb_prop in Hmsg as [Hf _]. rewrite extend_document.
    2:{ destruct (default ∅ (msg_fields msg) !! "_id"); [| done].
        by apply bool_decide_eq_true in Hf. }
    call. unfold LocalCollection.insert. rewrite idOf_document.
    cbn [LocalCollection.docs]. rewrite Hd. cbn. apply filed_insert; [done |].
    unfold Reference.document. by rewrite lookup_insert_eq. }
  destruct (String.eqb (msg_msg msg) "removed").
  { destruct (ds !! id) as [d |] eqn:Hd; [| done].
    call. cbn [LocalCollection.remove LocalCollection.docs]. rewrite Hd.
    cbn. by apply filed_delete. }
  destruct (String.eqb (msg_msg msg) "changed"); [| done].
  destruct (ds !! id) as [d |] eqn:Hd; [| done].
  destruct (isEmpty (msg_fields msg)); [done |].
  apply andb_prop in Hmsg as [_ Hf%bool_decide_eq_true].
  call. unfold LocalCollection.update. cbn [LocalCollection.docs]. rewrite Hd.
  cbn [snd store LocalCollection.docs]. apply filed_insert; [done |].
  rewrite changed_modifier_partition, modify_partition_lookup, Hf. by apply Hds.
Qed.

(** X11. Documents stay filed under their own identifier: if every document
    of the store has its key as ["_id"], this still holds after any sequence
    of messages that name their documents consistently and whose [changed]
    field mappings leave ["_id"] alone, wherever the sequence stops. *)
Theorem updates_keep_filing (msgs : list Msg) (w : World) :
  forallb (keeps_id _idParse) msgs = true →
  filed_by_id (LocalCollection.docs (store w)) →
  filed_by_id (LocalCollection.docs (store (updates _idParse msgs w).2)).
Proof.
  revert w. induction msgs as [| msg rest IH]; intros w Hmsgs Hw; [done |].
  cbn [forallb] in Hmsgs. apply andb_prop in Hmsgs as [Hmsg Hrest].
  cbn [updates]. unfold mbind, M_bind, bind.
  pose proof (update_keeps_filing msg w Hmsg Hw) as Hstep.
  destruct (update _idParse msg w) as [[[] | e] w1]; cbn in Hstep |- *.
  - by apply IH.
  - done.
Qed.

End StoreInvariant.

(** * Further properties of the constructor *)

Section ConstructorProperties.

Variable env : Environment.

Lemma Collection_named (name : string) (options : OptionsArg) :
  name ≠ EmptyString →
  Collection env true (VStr name) options =
    (let options := normalize_options options in
     let makeNewID :=
       if opt_idGeneration options is Some "MONGO" then MONGO else STRING in
     let connection := choose_connection env (Some name) options in
     let driver := choose_driver env (Some name) connection options in
     match connection with
     | ConnObj c =>
         match conn_registerStore c with
         | Some registerStore =>
             if negb (registerStore name) then
               Throw (Error ("There is already a collection named '" +:+ name +:+ "'"))
             else Ok (mkInstance makeNewID connection (Some name) driver true)
         | None => Ok (mkInstance makeNewID connection (Some name) driver false)
         end
     | _ => Ok (mkInstance makeNewID connection (Some name) driver false)
     end).
Proof.
  intros Hname. unfold Collection. cbn [negb truthy].
  apply String.eqb_neq in Hname. by rewrite Hname.
Qed.

Lemma Collection_unnamed (name : Value) (options : OptionsArg) :
  truthy name = false →
  Collection env true name options =
    Ok (mkInstance
          (if opt_idGeneration (normalize_options options) is Some "MONGO"
           then MONGO else STRING)
          ConnNull None
          (default LocalCollectionDriver (opt__driver (normalize_options options)))
          false).
Proof.
  intros Hname. unfold Collection. cbn [negb]. rewrite Hname. cbn [negb andb].
  assert (Hnull : (if bool_decide (name = VNull) then name else VNull) = VNull)
    by (by case_bool_decide).
  destruct (bool_decide (name = VNull)) eqn:Hn; cbn [negb].
  - apply bool_decide_eq_true in Hn. subst name. cbn.
    unfold choose_driver. cbn. by destruct (opt__driver _).
  - cbn. unfold choose_driver. cbn. by destruct (opt__driver _).
Qed.


(** X14. A constructed collection is registered exactly when it has a
    connection with [registerStore], and then the name is a string that
    [registerStore] accepted; the name it keeps is the string that was passed,
    or [null] for a falsy name. *)
Theorem Collection_constructed (calledWithNew : bool) (name : Value)
    (options : OptionsArg) (inst : Instance) :
  Collection env calledWithNew name options = Ok inst →
  calledWithNew = true
  ∧ _name inst = (if name is VStr s then
                    if String.eqb s EmptyString then None else Some s
                  else None)
  ∧ _connection inst = choose_connection env (_name inst) (normalize_options options)
  ∧ match _connection inst with
    | ConnObj c =>
        match conn_registerStore c with
        | Some registerStore =>
            _registered inst = true
            ∧ ∃ s, _name inst = Some s ∧ registerStore s = true
        | None => _registered inst = false
        end
    | _ => _registered inst = false
    end.
Proof.
  destruct calledWithNew; [| done].
  destruct (truthy name) eqn:Hname.
  2:{ rewrite (Collection_unnamed _ _ Hname). intros [= <-]. cbn.
      split; [done |]. split; [| done].
      destruct name as [| | | | s | |]; try done.
      cbn in Hname. by destruct (String.eqb s EmptyString). }
  destruct name as [| | b | n | s | items | props]; try done.
  - unfold Collection. cbn in *. by rewrite Hname.
  - unfold Collection. cbn in *. by rewrite Hname.
  - assert (Hs : s ≠ EmptyString) by (by intros ->).
    rewrite (Collection_named s options Hs). cbn zeta.
    apply String.eqb_neq in Hs. rewrite Hs.
    destruct (choose_connection env (Some s) (normalize_options options))
      as [| | c] eqn:Hc.
    + intros [= <-]. cbn. by rewrite Hc.
    + intros [= <-]. cbn. by rewrite Hc.
    + destruct (conn_registerStore c) as [registerStore |] eqn:Hreg.
      * destruct (registerStore s) eqn:Hok; [| done]. cbn. intros [= <-]. cbn.
        rewrite Hc, Hreg. by eauto 10.
      * intros [= <-]. cbn. by rewrite Hc, Hreg.
Qed.

(** X15. Which connection a named collection gets: a truthy [connection]
    option; failing that a truthy [manager] option, even when [connection]
    was passed as [null]; failing both, none if [connection] is [null], and
    otherwise the default connection of the side the code runs on. *)
Theorem Collection_connection (name : string) (o : Options) :
  name ≠ EmptyString →
  choose_connection env (Some name) (normalize_options (WithOptions o))
  = if conn_truthy (opt_connection o) then opt_connection o
    else if conn_truthy (opt_manager o) then opt_manager o
    else if conn_same (opt_connection o) ConnNull then ConnNull
    else if Meteor_isClient env then Meteor_connection env
    else Meteor_server env.
Proof.
  intros Hname. apply String.eqb_neq in Hname.
  unfold choose_connection, normalize_options, name_truthy. rewrite Hname.
  destruct o as [[| | m] [| | c] g d]; reflexivity.
Qed.

(** X16. The old ways to pass the connection are equivalent to the
    [connection] option: passing the connection object itself, and passing
    it as [manager] beside a falsy [connection]. *)
Theorem Collection_old_signatures (calledWithNew : bool) (name : Value)
    (c : Connection) :
  Collection env calledWithNew name (LegacyConnection c)
  = Collection env calledWithNew name
      (WithOptions (mkOptions ConnUndefined (ConnObj c) None None))
  ∧ ∀ conn g d, conn_truthy conn = false →
      Collection env calledWithNew name (WithOptions (mkOptions (ConnObj c) conn g d))
      = Collection env calledWithNew name
          (WithOptions (mkOptions ConnUndefined (ConnObj c) g d)).
Proof.
  split; [reflexivity |]. intros conn g d Hconn.
  unfold Collection, normalize_options. cbn [opt_manager opt_connection conn_truthy].
  rewrite Hconn. reflexivity.
Qed.

(** X17. The driver and the id generation of a constructed collection: a
    driver passed in the options is the one used; otherwise the remote driver
    is used exactly when the collection is named, its connection is
    [Meteor.server] and the remote driver is available, and the local driver
    in every other case; ids are Mongo object ids exactly when [idGeneration]
    is ['MONGO'], and strings for every other value. *)
Theorem Collection_driver_and_ids (calledWithNew : bool) (name : Value)
    (options : OptionsArg) (inst : Instance) :
  Collection env calledWithNew name options = Ok inst →
  (∀ d, opt__driver (normalize_options options) = Some d → _driver inst = d)
  ∧ (opt__driver (normalize_options options) = None →
     _driver inst =
       if name_truthy (_name inst) && conn_same (_connection inst) (Meteor_server env)
          && MongoInternals_defaultRemoteCollectionDriver env
       then DefaultRemoteCollectionDriver else LocalCollectionDriver)
  ∧ (_makeNewID inst = MONGO ↔
     opt_idGeneration (normalize_options options) = Some "MONGO").
Proof.
  assert (Hgen : ∀ g : option string,
    (if g is Some "MONGO" then MONGO else STRING) = MONGO ↔ g = Some "MONGO").
  { intros [g |]; [| done]. destruct (decide (g = "MONGO")) as [-> | Hg]; [done |].
    split; [| by intros [= ->]]. intros Hm. exfalso.
    repeat (destruct g as [| [[] [] [] [] [] [] [] []] g]; try done). }
  destruct calledWithNew; [| done].
  destruct (truthy name) eqn:Hname.
  2:{ rewrite (Collection_unnamed _ _ Hname). intros [= <-]. cbn.
      split; [by intros d -> |]. split; [by intros -> | apply Hgen]. }
  destruct name as [| | b | n | s | items | props]; try done.
  - unfold Collection. cbn in *. by rewrite Hname.
  - unfold Collection. cbn in *. by rewrite Hname.
  - assert (Hs : s ≠ EmptyString) by (by intros ->).
    rewrite (Collection_named s options Hs). cbn zeta.
    assert (Hdrv : ∀ conn,
      (∀ d, opt__driver (normalize_options options) = Some d →
            choose_driver env (Some s) conn (normalize_options options) = d)
      ∧ (opt__driver (normalize_options options) = None →
         choose_driver env (Some s) conn (normalize_options options) =
           if name_truthy (Some s) && conn_same conn (Meteor_server env)
              && MongoInternals_defaultRemoteCollectionDriver env
           then DefaultRemoteCollectionDriver else LocalCollectionDriver)).
    { intros conn. unfold choose_driver.
      destruct (opt__driver (normalize_options options)); split; congruence. }
    destruct (choose_connection env (Some s) (normalize_options options))
      as [| | c] eqn:Hc.
    + intros [= <-]. cbn [_driver _name _connection _makeNewID].
      destruct (Hdrv ConnUndefined). by repeat split; try apply Hgen.
    + intros [= <-]. cbn [_driver _name _connection _makeNewID].
      destruct (Hdrv ConnNull). by repeat split; try apply Hgen.
    + destruct (conn_registerStore c) as [registerStore |] eqn:Hreg.
      * destruct (registerStore s) eqn:Hok; [| done]. cbn [negb].
        intros [= <-]. cbn [_driver _name _connection _makeNewID].
        destruct (Hdrv (ConnObj c)). by repeat split; try apply Hgen.
      * intros [= <-]. cbn [_driver _name _connection _makeNewID].
        destruct (Hdrv (ConnObj c)). by repeat split; try apply Hgen.
Qed.

End ConstructorProperties.

(** * The further properties on the sample data *)

Lemma update_throw_keeps_store_witness :
  update VStr replaceC_as_B storeAB
    = (Throw DuplicateKey,
       mkWorld (store storeAB)
               [CFindOne (VStr "C"); CInsert {[ "_id" := VStr "B"; "age" := VNum 7 ]}])
  ∧ store (mkWorld (store storeAB)
                   [CFindOne (VStr "C");
                    CInsert {[ "_id" := VStr "B"; "age" := VNum 7 ]}])
    = store storeAB.
Proof.
  split; [vm_compute; reflexivity |].
  apply (update_throw_keeps_store VStr replaceC_as_B storeAB _ DuplicateKey).
  vm_compute; reflexivity.
Defined.

Lemma update_calls_witness :
  ∃ w', update VStr addC storeAB = (Ok tt, w')
        ∧ LocalCollection.paused (store w') = LocalCollection.paused (store storeAB)
        ∧ ∃ cs, calls w' = calls storeAB ++ CFindOne (VStr "C") :: cs
                ∧ (cs = [] ∨ (∃ doc, cs = [CInsert doc]) ∨ cs = [CRemove (SelId (VStr "C"))]
                   ∨ ∃ m, cs = [CUpdate (VStr "C") m]).
Proof.
  destruct (update VStr addC storeAB) as [res w'] eqn:Hrun.
  assert (Hres : res = Ok tt).
  { pose proof (f_equal fst Hrun) as Hfst. cbn [fst] in Hfst.
    rewrite <- Hfst. vm_compute. reflexivity. }
  subst res. exists w'. split; [reflexivity |].
  apply (update_calls VStr addC storeAB w' (Ok tt) Hrun).
Defined.

Lemma update_frame_witness :
  ∃ w', update VStr addA_as_C storeAB = (Ok tt, w')
        ∧ ∃ k, (k = VStr "A2"
                ∨ ∃ doc, calls w' = calls storeAB ++ [CFindOne (VStr "A2"); CInsert doc]
                         ∧ k = LocalCollection.idOf doc)
               ∧ ∀ k', k' ≠ k →
                   LocalCollection.docs (store w') !! k'
                   = LocalCollection.docs (store storeAB) !! k'.
Proof.
  destruct (update VStr addA_as_C storeAB) as [res w'] eqn:Hrun.
  assert (Hres : res = Ok tt).
  { pose proof (f_equal fst Hrun) as Hfst. cbn [fst] in Hfst.
    rewrite <- Hfst. vm_compute. reflexivity. }
  subst res. exists w'. split; [reflexivity |].
  apply (update_frame VStr addA_as_C storeAB w' (Ok tt) Hrun).
Defined.

Lemma batch_pause_depth_witness :
  ∃ w', (beginUpdate 2 false;; updates VStr [addC; changeA];; endUpdate) storeAB
        = (Ok tt, w')
        ∧ LocalCollection.paused (store w') = LocalCollection.paused (store storeAB).
Proof.
  destruct ((beginUpdate 2 false;; updates VStr [addC; changeA];; endUpdate) storeAB)
    as [res w'] eqn:Hrun.
  assert (Hres : res = Ok tt).
  { pose proof (f_equal fst Hrun) as Hfst. cbn [fst] in Hfst.
    rewrite <- Hfst. vm_compute. reflexivity. }
  subst res. exists w'. split; [reflexivity |].
  apply (batch_pause_depth VStr 2 false [addC; changeA] storeAB w' Hrun).
Defined.

Lemma update_returns_iff_witness :
  (update VStr removeC storeAB).1 ≠ Ok tt
  ∧ (update VStr unsetC storeAB).1 = Ok tt
  ∧ (update VStr replaceC_as_B storeAB).1 ≠ Ok tt.
Proof.
  destruct (update_returns_iff VStr removeC storeAB) as (Hrem & _).
  destruct (update_returns_iff VStr unsetC storeAB) as (_ & _ & Hnull & _).
  destruct (update_returns_iff VStr replaceC_as_B storeAB) as (_ & _ & _ & Hrep).
  split; [| split].
  - intros Hok. apply (Hrem (or_introl eq_refl)) in Hok as [d Hd].
    vm_compute in Hd. discriminate Hd.
  - apply Hnull; reflexivity.
  - intros Hok. apply (Hrep eq_refl _ eq_refl) in Hok as [[d Hd] | Hfree].
    + vm_compute in Hd. discriminate Hd.
    + vm_compute in Hfree. discriminate Hfree.
Defined.

Lemma added_removed_round_trip_witness :
  ∃ w', updates VStr [addC; removeC] storeAB = (Ok tt, w')
        ∧ store w' = store storeAB.
Proof.
  apply (added_removed_round_trip VStr addC removeC storeAB);
    vm_compute; reflexivity.
Defined.

Lemma changed_idempotent_witness :
  (update VStr changeA (update VStr changeA storeAB).2).1
  = (update VStr changeA storeAB).1
  ∧ store (update VStr changeA (update VStr changeA storeAB).2).2
    = store (update VStr changeA storeAB).2.
Proof. apply (changed_idempotent VStr changeA storeAB). reflexivity. Defined.


Lemma changed_modifier_operators_witness :
  default ∅ (changed_modifier {[ "name" := VUndefined; "age" := VNum 7 ]} !! "$set")
    !! "age" = Some (VNum 7)
  ∧ default ∅ (changed_modifier {[ "name" := VUndefined; "age" := VNum 7 ]} !! "$unset")
      !! "name" = Some (VNum 1).
Proof.
  destruct (changed_modifier_operators {[ "name" := VUndefined; "age" := VNum 7 ]})
    as (_ & _ & Hset & Hunset & _).
  split.
  - apply (Hset "age" (VNum 7)); [vm_compute; reflexivity | discriminate].
  - apply (Hunset "name"). vm_compute; reflexivity.
Defined.

Lemma updates_keep_filing_witness :
  forallb (keeps_id VStr) [addC; changeA; replaceA; removeC] = true
  ∧ filed_by_id
      (LocalCollection.docs
         (store (updates VStr [addC; changeA; replaceA; removeC] storeAB).2)).
Proof.
  split; [vm_compute; reflexivity |].
  apply (updates_keep_filing VStr [addC; changeA; replaceA; removeC] storeAB).
  - vm_compute; reflexivity.
  - intros k d Hk. cbn [storeAB world_of store LocalCollection.docs] in Hk.
    apply lookup_insert_Some in Hk as [[<- <-] | [_ Hk]]; [vm_compute; reflexivity |].
    apply lookup_singleton_Some in Hk as [<- <-]. vm_compute; reflexivity.
Defined.

Lemma Collection_constructed_witness :
  Collection server true (VStr "posts") NoOptions
    = Ok (mkInstance STRING (ConnObj free) (Some "posts") DefaultRemoteCollectionDriver true)
  ∧ _registered (mkInstance STRING (ConnObj free) (Some "posts")
                            DefaultRemoteCollectionDriver true) = true.
Proof.
  split; [reflexivity |].
  destruct (Collection_constructed server true (VStr "posts") NoOptions
              (mkInstance STRING (ConnObj free) (Some "posts")
                          DefaultRemoteCollectionDriver true) eq_refl)
    as (_ & _ & _ & Hreg).
  cbn in Hreg. apply Hreg.
Defined.

Lemma Collection_connection_witness :
  choose_connection client (Some "posts")
    (normalize_options (WithOptions (mkOptions (ConnObj free) ConnNull None None)))
  = ConnObj free.
Proof.
  apply (Collection_connection client "posts"
           (mkOptions (ConnObj free) ConnNull None None)).
  discriminate.
Defined.

Lemma Collection_old_signatures_witness :
  Collection client true (VStr "posts")
    (WithOptions (mkOptions (ConnObj free) ConnNull (Some "MONGO") None))
  = Collection client true (VStr "posts")
      (WithOptions (mkOptions ConnUndefined (ConnObj free) (Some "MONGO") None)).
Proof.
  apply (proj2 (Collection_old_signatures client true (VStr "posts") free)).
  reflexivity.
Defined.

Lemma Collection_driver_and_ids_witness :
  Collection server true (VStr "posts")
    (WithOptions (mkOptions ConnUndefined ConnUndefined (Some "SQL") None))
    = Ok (mkInstance STRING (ConnObj free) (Some "posts") DefaultRemoteCollectionDriver true)
  ∧ _makeNewID (mkInstance STRING (ConnObj free) (Some "posts")
                           DefaultRemoteCollectionDriver true) ≠ MONGO.
Proof.
  split; [reflexivity |].
  destruct (Collection_driver_and_ids server true (VStr "posts")
              (WithOptions (mkOptions ConnUndefined ConnUndefined (Some "SQL") None))
              (mkInstance STRING (ConnObj free) (Some "posts")
                          DefaultRemoteCollectionDriver true) eq_refl)
    as (_ & _ & Hids).
  intros Hm. apply Hids in Hm. discriminate Hm.
Defined.

(** * The constructor and the packages it calls *)

Section ConstructorCallsProperties.

Variable pkg : Packages.
Variable env : Environment.

(** The calls made for a name that passed the checks, in order. *)
Lemma Collection_full_unfold (name : option string) (nameV : Value)
    (options : OptionsArg) :
  nameV = (if name is Some s then VStr s else VNull) →
  (if name is Some s then s ≠ EmptyString else True) →
  Collection_full pkg env true nameV options =
    (let opts := normalize_options options in
     let connection := choose_connection env name opts in
     let driver := choose_driver env name connection opts in
     and_then (LocalCollection_wrapTransform pkg) (λ _,
     and_then
       (match opt__driver opts with
        | Some _ => Ok tt
        | None =>
            if name_truthy name && conn_same connection (Meteor_server env)
               && MongoInternals_defaultRemoteCollectionDriver env
            then MongoInternals_defaultRemoteCollectionDriver_call pkg
            else Ok tt
        end) (λ _,
     and_then (driver_open pkg driver name connection) (λ _,
     and_then (registration_call pkg name connection) (λ _,
     Collection env true nameV options))))).
Proof.
  intros -> Hname.
  assert (Hreg : ∀ (n : option string) (conn : ConnRef) (gen : IdGeneration)
                   (drv : Driver),
    match conn with
    | ConnObj c =>
        match conn_registerStore c with
        | Some registerStore =>
            and_then (registerStore_call pkg c (name_string n)) (λ _,
            if negb (registerStore (name_string n)) then
              Throw (Error ("There is already a collection named '"
                            +:+ name_string n +:+ "'"))
            else Ok (mkInstance gen conn n drv true))
        | None => Ok (mkInstance gen conn n drv false)
        end
    | _ => Ok (mkInstance gen conn n drv false)
    end
    = and_then (registration_call pkg n conn) (λ _,
      match conn with
      | ConnObj c =>
          match conn_registerStore c with
          | Some registerStore =>
              if negb (registerStore (name_string n)) then
                Throw (Error ("There is already a collection named '"
                              +:+ name_string n +:+ "'"))
              else Ok (mkInstance gen conn n drv true)
          | None => Ok (mkInstance gen conn n drv false)
          end
      | _ => Ok (mkInstance gen conn n drv false)
      end)).
  { intros n [| | c] gen drv; try reflexivity. unfold registration_call.
    by destruct (conn_registerStore c). }
  destruct name as [s |].
  - apply String.eqb_neq in Hname.
    unfold Collection_full, Collection. cbn [negb truthy]. rewrite Hname.
    cbn [negb andb and_then]. cbn zeta. by rewrite Hreg.
  - unfold Collection_full, Collection. cbn [negb truthy andb and_then bool_decide].
    cbn zeta. by rewrite Hreg.
Qed.

(** A falsy name other than [null] is reported and then treated as [null]. *)
Lemma Collection_full_anonymous (name : Value) (options : OptionsArg) :
  truthy name = false → name ≠ VNull →
  Collection_full pkg env true name options =
    and_then (Meteor__debug pkg) (λ _, Collection_full pkg env true VNull options).
Proof.
  intros Hname Hnull. unfold Collection_full. cbn [negb]. rewrite Hname.
  rewrite (bool_decide_eq_false_2 _ Hnull). cbn [negb andb].
  destruct (Meteor__debug pkg) as [[] | e]; reflexivity.
Qed.

(** When the calls into other packages return, the constructor does what
    its own checks and the registration decide. *)
Lemma Collection_full_returns (calledWithNew : bool) (name : Value)
    (options : OptionsArg) :
  Meteor__debug pkg = Ok tt →
  LocalCollection_wrapTransform pkg = Ok tt →
  MongoInternals_defaultRemoteCollectionDriver_call pkg = Ok tt →
  (∀ driver n c, driver_open pkg driver n c = Ok tt) →
  (∀ c s, registerStore_call pkg c s = Ok tt) →
  Collection_full pkg env calledWithNew name options
  = Collection env calledWithNew name options.
Proof.
  intros Hdebug Hwrap Hremote Hopen Hregister.
  unfold Collection_full, Collection. rewrite Hdebug, Hwrap, Hremote.
  destruct calledWithNew; [| reflexivity]. cbn [negb].
  assert (Hif : ∀ b : bool, (if b then Ok tt else Ok tt) = Ok tt :> Result unit)
    by (by intros []).
  rewrite Hif. cbn [and_then].
  destruct (if negb (truthy name) && negb (bool_decide (name = VNull))
            then VNull else name); try reflexivity.
  - destruct (opt__driver _); [| rewrite Hif]; cbn [and_then]; rewrite Hopen;
      cbn [and_then]; cbn zeta;
      (destruct (choose_connection _ _ _) as [| | c]; try reflexivity;
       destruct (conn_registerStore c); [by rewrite Hregister | reflexivity]).
  - destruct (opt__driver _); [| rewrite Hif]; cbn [and_then]; rewrite Hopen;
      cbn [and_then]; cbn zeta;
      (destruct (choose_connection _ _ _) as [| | c]; try reflexivity;
       destruct (conn_registerStore c); [by rewrite Hregister | reflexivity]).
Qed.


(** X13. A collection without a name (the name is [null] or any other falsy
    value): the constructor throws none of its own errors and asks neither
    for the remote driver nor for a registration; it throws only what
    [Meteor._debug] (for a falsy name other than [null]),
    [LocalCollection.wrapTransform] or [_driver.open(null, null)] throws, and
    returns whenever these return.  The collection then has no name and no
    connection, whatever the options and the environment offer, is not
    registered, and its driver is the one that was passed or else the local
    one. *)
Theorem Collection_full_without_name (name : Value) (options : OptionsArg) :
  truthy name = false →
  let driver :=
    default LocalCollectionDriver (opt__driver (normalize_options options)) in
  let built inst :=
    _name inst = None ∧ _connection inst = ConnNull ∧ _registered inst = false
    ∧ _driver inst = driver in
  (∀ e, Collection_full pkg env true name options = Throw e →
        (name ≠ VNull ∧ Meteor__debug pkg = Throw e)
        ∨ LocalCollection_wrapTransform pkg = Throw e
        ∨ driver_open pkg driver None ConnNull = Throw e)
  ∧ (name = VNull ∨ Meteor__debug pkg = Ok tt →
     LocalCollection_wrapTransform pkg = Ok tt →
     driver_open pkg driver None ConnNull = Ok tt →
     ∃ inst, Collection_full pkg env true name options = Ok inst ∧ built inst)
  ∧ (∀ inst, Collection_full pkg env true name options = Ok inst → built inst).
Proof.
  intros Hname driver built.
  assert (Hnull : Collection_full pkg env true VNull options =
    and_then (LocalCollection_wrapTransform pkg) (λ _,
    and_then (driver_open pkg driver None ConnNull) (λ _,
    Collection env true VNull options))).
  { rewrite (Collection_full_unfold None VNull options eq_refl I). cbn zeta.
    unfold choose_connection, choose_driver. cbn [name_truthy negb orb andb].
    fold driver. destruct (LocalCollection_wrapTransform pkg) as [[] | e]; [| done].
    cbn [and_then]. subst driver. by destruct (opt__driver (normalize_options options)). }
  rewrite (Collection_unnamed env VNull options eq_refl) in Hnull. fold driver in Hnull.
  assert (Hfull : Collection_full pkg env true name options =
    and_then (if bool_decide (name = VNull) then Ok tt else Meteor__debug pkg) (λ _,
    Collection_full pkg env true VNull options)).
  { case_bool_decide as Hn; [by subst name |].
    by apply Collection_full_anonymous. }
  rewrite Hfull, Hnull. clear Hfull Hnull.
  split; [| split].
  - intros e. case_bool_decide as Hn.
    + cbn [and_then]. destruct (LocalCollection_wrapTransform pkg) as [[] | e1];
        cbn [and_then]; [| intros [= <-]; right; by left].
      destruct (driver_open pkg driver None ConnNull) as [[] | e1]; cbn [and_then];
        [done | intros [= <-]; right; by right].
    + destruct (Meteor__debug pkg) as [[] | e1]; cbn [and_then];
        [| intros [= <-]; by left].
      destruct (LocalCollection_wrapTransform pkg) as [[] | e1];
        cbn [and_then]; [| intros [= <-]; right; by left].
      destruct (driver_open pkg driver None ConnNull) as [[] | e1]; cbn [and_then];
        [done | intros [= <-]; right; by right].
  - intros Hdebug -> ->. cbn [and_then].
    assert (Hpre : (if bool_decide (name = VNull) then Ok tt else Meteor__debug pkg)
                   = Ok tt).
    { case_bool_decide as Hn; [done |]. by destruct Hdebug. }
    rewrite Hpre. cbn [and_then]. eexists. split; [reflexivity |]. by repeat split.
  - intros inst.
    destruct (if bool_decide (name = VNull) then Ok tt else Meteor__debug pkg)
      as [[] | e1]; cbn [and_then]; [| done].
    destruct (LocalCollection_wrapTransform pkg) as [[] | e1]; cbn [and_then]; [| done].
    destruct (driver_open pkg driver None ConnNull) as [[] | e1]; cbn [and_then];
      [| done].
    intros [= <-]. by repeat split.
Qed.

End ConstructorCallsProperties.


Lemma Collection_full_without_name_witness :
  ∃ inst, Collection_full packages client true VUndefined (LegacyConnection busy)
          = Ok inst
          ∧ _name inst = None
          ∧ _connection inst = ConnNull
          ∧ _registered inst = false
          ∧ _driver inst = LocalCollectionDriver.
Proof.
  apply (proj1 (proj2 (Collection_full_without_name packages client VUndefined
                         (LegacyConnection busy) eq_refl)));
    [by right | reflexivity | reflexivity].
Defined.
